(** * Clide: safety classifier, execution engine and confirmation handling

    A shallow embedding of the parts of [src/safety.py], [src/executor.py]
    and [src/bot.py] that decide the command-gating behaviour, followed by
    the properties proved about them.

    Conventions of the embedding.
    - A Python [str] is a [string]; one [ascii] stands for one code point
      below 256 (the Latin-1 range).  Character classes ([str.isspace],
      [\s], [\w], case folding) are the Python ones restricted to that range.
    - A compiled regular expression is a value of [Re.re]; every pattern of
      the module is compiled with [re.IGNORECASE], which is built into the
      membership test of character sets.
    - The operating system, the SSH peer and the language model are
      oracles carried by the world the executor runs in.
    - Wall-clock durations (a float) and the pause of one second before a
      retry are not represented. *)

From stdpp Require Import base gmap strings list.
From Stdlib Require Import ZArith NArith Ascii String List Bool Lia DecimalString.
Import ListNotations.

Local Open Scope string_scope.

(* ===================================================================== *)
(** ** Python string primitives *)
(* ===================================================================== *)

Module PyStr.

Definition code (c : ascii) : N := N_of_ascii c.

(** [str.isspace] on one character; the same class is used by [\s]. *)
Definition isspace (c : ascii) : bool :=
  let n := code c in
  (((9 <=? n) && (n <=? 13)) || ((28 <=? n) && (n <=? 32))
   || (n =? 133) || (n =? 160))%N.

(** [str.lower] on one character. *)
Definition lower_char (c : ascii) : ascii :=
  let n := code c in
  if (((65 <=? n) && (n <=? 90))
      || ((192 <=? n) && (n <=? 222) && negb (n =? 215)))%N
  then ascii_of_N (n + 32) else c.

(** [str.upper] on one character, where the result stays below 256. *)
Definition upper_char (c : ascii) : ascii :=
  let n := code c in
  if (((97 <=? n) && (n <=? 122))
      || ((224 <=? n) && (n <=? 254) && negb (n =? 247)))%N
  then ascii_of_N (n - 32) else c.

(** The class [\w]: alphanumeric characters and the underscore. *)
Definition isword (c : ascii) : bool :=
  let n := code c in
  (((48 <=? n) && (n <=? 57)) || ((65 <=? n) && (n <=? 90))
   || ((97 <=? n) && (n <=? 122)) || (n =? 95)
   || (n =? 170) || (n =? 178) || (n =? 179) || (n =? 181)
   || (n =? 185) || (n =? 186) || ((188 <=? n) && (n <=? 190))
   || ((192 <=? n) && (n <=? 214)) || ((216 <=? n) && (n <=? 246))
   || (248 <=? n))%N.

Fixpoint lower (s : string) : string :=
  match s with
  | EmptyString => EmptyString
  | String c s' => String (lower_char c) (lower s')
  end.

Fixpoint lstrip (s : string) : string :=
  match s with
  | EmptyString => EmptyString
  | String c s' => if isspace c then lstrip s' else s
  end.

Fixpoint rstrip (s : string) : string :=
  match s with
  | EmptyString => EmptyString
  | String c s' =>
      match rstrip s' with
      | EmptyString => if isspace c then EmptyString else String c EmptyString
      | t => String c t
      end
  end.

(** All characters of a string are whitespace. *)
Fixpoint allspace (s : string) : bool :=
  match s with
  | EmptyString => true
  | String c s' => isspace c && allspace s'
  end.

(** [s.strip()] *)
Definition strip (s : string) : string := rstrip (lstrip s).

(** [s.startswith(p)] *)
Definition startswith (s p : string) : bool := String.prefix p s.

(** [needle in hay] *)
Fixpoint contains (needle hay : string) : bool :=
  String.prefix needle hay
  || match hay with
     | EmptyString => false
     | String _ hay' => contains needle hay'
     end.

(** [x in xs] for a list of strings. *)
Definition mem (x : string) (xs : list string) : bool :=
  existsb (String.eqb x) xs.

(** [str(n)] for an [int]. *)
Definition str_of_Z (n : Z) : string :=
  NilZero.string_of_int (Z.to_int n).

(** Truthiness of a [str]. *)
Definition truthy (s : string) : bool := negb (String.eqb s "").

End PyStr.

(* ===================================================================== *)
(** ** Regular expressions, as [re.compile(p, re.IGNORECASE)] builds them *)
(* ===================================================================== *)

Module Re.
Import PyStr.

(** Single-character items of a pattern. *)
Inductive cset : Type :=
| CLit (c : ascii)                         (* a literal character    *)
| CSpace                                   (* \s                     *)
| CAny                                     (* .  (no DOTALL)         *)
| CWord                                    (* \w                     *)
| CClass (ranges : list (ascii * ascii)).  (* [a-z], [06]            *)

Definition in_range (lo hi x : ascii) : bool :=
  ((code lo <=? code x) && (code x <=? code hi))%N.

(** Membership under IGNORECASE. *)
Definition cs_mem (cs : cset) (x : ascii) : bool :=
  match cs with
  | CLit c => Ascii.eqb (lower_char x) (lower_char c)
  | CSpace => isspace x
  | CAny => negb (Ascii.eqb x "010")
  | CWord => isword x
  | CClass rs =>
      existsb (fun r => in_range (fst r) (snd r) x
                        || in_range (fst r) (snd r) (lower_char x)
                        || in_range (fst r) (snd r) (upper_char x)) rs
  end.

Inductive re : Type :=
| Eps
| Chr (cs : cset)
| Seq (a b : re)
| Alt (a b : re)
| Star (a : re)
| Eol.                                     (* $  (no MULTILINE)      *)

Definition Plus (a : re) : re := Seq a (Star a).
Definition Opt (a : re) : re := Alt a Eps.
Definition lit (c : ascii) : re := Chr (CLit c).

(** A run of literal characters. *)
Fixpoint lits (s : string) : re :=
  match s with
  | EmptyString => Eps
  | String c EmptyString => lit c
  | String c s' => Seq (lit c) (lits s')
  end.

(** Concatenation of the items of a pattern, in order. *)
Fixpoint cat (rs : list re) : re :=
  match rs with
  | [] => Eps
  | [r] => r
  | r :: rs' => Seq r (cat rs')
  end.

(** [$] matches at the end of the text and before a final newline. *)
Definition at_eol (s : string) : bool :=
  match s with
  | EmptyString => true
  | String c EmptyString => Ascii.eqb c "010"
  | _ => false
  end.

(** Iteration of [step]; an iteration that consumes nothing is not
    repeated, so the loop ends after at most [length s] rounds. *)
Fixpoint star_loop (step : string -> (string -> bool) -> bool)
         (k : string -> bool) (n : nat) (s : string) : bool :=
  match n with
  | O => k s
  | S n' =>
      k s || step s (fun s' => (String.length s' <? String.length s)%nat
                               && star_loop step k n' s')
  end.

(** Backtracking matcher: [re_match r s k] holds when [r] matches a prefix
    of [s] and the continuation [k] accepts the rest. *)
Fixpoint re_match (r : re) (s : string) (k : string -> bool) : bool :=
  match r with
  | Eps => k s
  | Chr cs =>
      match s with
      | EmptyString => false
      | String c s' => cs_mem cs c && k s'
      end
  | Seq a b => re_match a s (fun s' => re_match b s' k)
  | Alt a b => re_match a s k || re_match b s k
  | Star a => star_loop (re_match a) k (S (String.length s)) s
  | Eol => at_eol s && k s
  end.

(** Declarative reading of a pattern: [Matches r m rest] says that [r]
    matches exactly the text [m] when [rest] is what follows it. *)
Inductive Matches : re -> string -> string -> Prop :=
| MEps rest : Matches Eps "" rest
| MChr cs c rest : cs_mem cs c = true -> Matches (Chr cs) (String c "") rest
| MSeq a b m1 m2 rest :
    Matches a m1 (m2 ++ rest) -> Matches b m2 rest ->
    Matches (Seq a b) (m1 ++ m2) rest
| MAltL a b m rest : Matches a m rest -> Matches (Alt a b) m rest
| MAltR a b m rest : Matches b m rest -> Matches (Alt a b) m rest
| MStar0 a rest : Matches (Star a) "" rest
| MStarS a m1 m2 rest :
    Matches a m1 (m2 ++ rest) -> Matches (Star a) m2 rest ->
    Matches (Star a) (m1 ++ m2) rest
| MEol rest : at_eol rest = true -> Matches Eol "" rest.

(** [pattern.search(s)], as a truth value: a match at some position. *)
Fixpoint search (r : re) (s : string) : bool :=
  re_match r s (fun _ => true)
  || match s with
     | EmptyString => false
     | String _ s' => search r s'
     end.

(** *** Syntactic analyses used by the proofs *)

Fixpoint nullable (r : re) : bool :=
  match r with
  | Eps | Eol | Star _ => true
  | Chr _ => false
  | Seq a b => nullable a && nullable b
  | Alt a b => nullable a || nullable b
  end.

Fixpoint eol_free (r : re) : bool :=
  match r with
  | Eps | Chr _ => true
  | Eol => false
  | Seq a b | Alt a b => eol_free a && eol_free b
  | Star a => eol_free a
  end.

(** The twelve whitespace characters below 256. *)
Definition spaces : list ascii :=
  map ascii_of_N [9; 10; 11; 12; 13; 28; 29; 30; 31; 32; 133; 160]%N.

Definition no_space (cs : cset) : bool :=
  forallb (fun c => negb (cs_mem cs c)) spaces.

(** Every match is non-empty and starts with a non-space character. *)
Fixpoint first_ok (r : re) : bool :=
  match r with
  | Chr cs => no_space cs
  | Seq a _ => first_ok a
  | Alt a b => first_ok a && first_ok b
  | _ => false
  end.

(** A match that ends the text with a space still matches without it. *)
Fixpoint rtrim (r : re) : bool :=
  match r with
  | Eps | Eol => true
  | Chr cs => no_space cs
  | Seq a b => rtrim b && (rtrim a || negb (nullable b))
  | Alt a b => rtrim a && rtrim b
  | Star (Chr _) => true
  | Star a => rtrim a
  end.

(** The tail [\s*$] of a pattern. *)
Definition is_trailer (r : re) : bool :=
  match r with
  | Seq (Star (Chr CSpace)) Eol => true
  | _ => false
  end.

(** A match still matches (possibly longer) when a space is appended to
    the text. *)
Fixpoint rext (r : re) : bool :=
  eol_free r || is_trailer r
  || match r with
     | Seq a b => eol_free a && rext b
     | _ => false
     end.

(** [Trims r]: a match of [r] that ends the text with a whitespace
    character is still a match once that character is removed. *)
Definition Trims (r : re) : Prop :=
  forall m c, isspace c = true ->
              Matches r (m ++ String c "") "" -> Matches r m "".

(** [Extends r]: a match of [r] survives, possibly longer, when a
    whitespace character is appended to the text. *)
Definition Extends (r : re) : Prop :=
  forall m post c, isspace c = true -> Matches r m post ->
    exists m' post', m ++ post ++ String c "" = m' ++ post'
                     /\ Matches r m' post'.

End Re.

(* ===================================================================== *)
(** ** src/safety.py *)
(* ===================================================================== *)

Module Safety.
Import PyStr Re.

(** [SafetyResult]; [risk_level] is one of low, medium, high, critical. *)
Record SafetyResult : Type := mkSafetyResult {
  is_safe : bool;
  requires_confirmation : bool;
  reason : string;
  risk_level : string
}.

Definition sp : re := Chr CSpace.
Definition any : re := Chr CAny.

(** Patterns that are always blocked. *)
Definition CRITICAL_PATTERNS : list re := [
  (* rm\s+(-rf?|--force|--recursive)?\s*/\s*$ *)
  cat [lits "rm"; Plus sp;
       Opt (Alt (Seq (lits "-r") (Opt (lit "f")))
                (Alt (lits "--force") (lits "--recursive")));
       Star sp; lit "/"; Star sp; Eol];
  (* dd\s+if=/dev/zero *)
  cat [lits "dd"; Plus sp; lits "if=/dev/zero"];
  (* mkfs\.* *)
  cat [lits "mkfs"; Star (lit ".")];
  (* :\(\)\{.*\|\:&\}\;\: *)
  cat [lits ":(){"; Star any; lits "|:&};:"];
  (* chmod\s+(-R\s+)?777\s+/ *)
  cat [lits "chmod"; Plus sp; Opt (Seq (lits "-R") (Plus sp));
       lits "777"; Plus sp; lit "/"];
  (* >\s*/dev/sd[a-z] *)
  cat [lit ">"; Star sp; lits "/dev/sd"; Chr (CClass [("a", "z")%char])];
  (* fdisk.*--wipe *)
  cat [lits "fdisk"; Star any; lits "--wipe"]
].

(** Patterns that require confirmation. *)
Definition HIGH_RISK_PATTERNS : list re := [
  (* rm\s+(-rf?|--force|--recursive) *)
  cat [lits "rm"; Plus sp;
       Alt (Seq (lits "-r") (Opt (lit "f")))
           (Alt (lits "--force") (lits "--recursive"))];
  (* dd\s+ *)
  cat [lits "dd"; Plus sp];
  (* mkfs\. *)
  lits "mkfs.";
  (* userdel\s+ *)
  cat [lits "userdel"; Plus sp];
  (* deluser\s+ *)
  cat [lits "deluser"; Plus sp];
  (* passwd\s+ *)
  cat [lits "passwd"; Plus sp];
  (* usermod\s+ *)
  cat [lits "usermod"; Plus sp];
  (* shutdown\s+ *)
  cat [lits "shutdown"; Plus sp];
  (* reboot *)
  lits "reboot";
  (* halt *)
  lits "halt";
  (* init\s+[06] *)
  cat [lits "init"; Plus sp; Chr (CClass [("0", "0"); ("6", "6")]%char)];
  (* systemctl\s+(stop|disable|mask) *)
  cat [lits "systemctl"; Plus sp;
       Alt (lits "stop") (Alt (lits "disable") (lits "mask"))];
  (* service\s+\w+\s+stop *)
  cat [lits "service"; Plus sp; Plus (Chr CWord); Plus sp; lits "stop"];
  (* kill\s+(-9\s+)?1\s*$ *)
  cat [lits "kill"; Plus sp; Opt (Seq (lits "-9") (Plus sp));
       lit "1"; Star sp; Eol];
  (* iptables\s+-F *)
  cat [lits "iptables"; Plus sp; lits "-F"];
  (* ufw\s+(disable|reset) *)
  cat [lits "ufw"; Plus sp; Alt (lits "disable") (lits "reset")];
  (* iptables.*DROP.*INPUT *)
  cat [lits "iptables"; Star any; lits "DROP"; Star any; lits "INPUT"]
].

(** Commands that need confirmation. *)
Definition CONFIRMATION_COMMANDS : list string := [
  "rm"; "dd"; "mkfs"; "fdisk"; "parted";
  "userdel"; "deluser"; "usermod"; "passwd";
  "shutdown"; "reboot"; "halt"; "poweroff";
  "systemctl"; "service";
  "iptables"; "ufw"; "firewall-cmd";
  "apt remove"; "apt purge"; "yum remove";
  "docker rm"; "docker rmi"
].

(** Safe read-only commands. *)
Definition SAFE_COMMANDS : list string := [
  "ls"; "cat"; "less"; "more"; "head"; "tail";
  "grep"; "find"; "locate"; "which"; "whereis";
  "ps"; "top"; "htop"; "free"; "df"; "du";
  "netstat"; "ss"; "lsof"; "ifconfig"; "ip";
  "uptime"; "whoami"; "who"; "w"; "id";
  "date"; "cal"; "pwd"; "echo";
  "systemctl status"; "service status";
  "git status"; "git log"; "git diff"
].

(** The attributes of a [Safety] object.  A pattern handed to the
    constructor is held in parsed form, as [re.compile] would return it. *)
Record Safety : Type := mkSafety {
  safety_level : string;
  blocked_patterns : list re;
  confirmation_commands : list string;
  compiled_critical : list re;
  compiled_high_risk : list re
}.

(** [Safety.__init__]: an absent or empty optional list adds nothing. *)
Definition init (blocked : option (list re))
           (requires : option (list string)) (level : string) : Safety :=
  {| safety_level := level;
     blocked_patterns :=
       CRITICAL_PATTERNS ++ match blocked with Some l => l | None => [] end;
     confirmation_commands :=
       CONFIRMATION_COMMANDS ++ match requires with Some l => l | None => [] end;
     compiled_critical := CRITICAL_PATTERNS;
     compiled_high_risk := HIGH_RISK_PATTERNS |}.

(** [Safety._is_safe_command] *)
Definition _is_safe_command (command : string) : bool :=
  existsb (fun safe_cmd =>
             String.eqb command safe_cmd
             || startswith command (safe_cmd ++ " ")) SAFE_COMMANDS.

(** [Safety.check_command] *)
Definition check_command (self : Safety) (command : string) : SafetyResult :=
  let command := strip command in
  if String.eqb command "" then
    mkSafetyResult false false "Empty command" "low"
  else if existsb (fun pattern => search pattern command)
                  (compiled_critical self) then
    mkSafetyResult false false
      "Blocked: Critical destructive pattern detected" "critical"
  else if existsb (fun pattern => search pattern command)
                  (compiled_high_risk self) then
    mkSafetyResult true true "High risk operation detected" "high"
  else if _is_safe_command command then
    mkSafetyResult true false "Read-only safe command" "low"
  else if String.eqb (safety_level self) "high" then
    mkSafetyResult true true "High safety mode: confirmation required" "medium"
  else if String.eqb (safety_level self) "medium"
          && existsb (fun cmd => contains cmd command)
                     (confirmation_commands self) then
    mkSafetyResult true true "Command requires confirmation" "medium"
  else
    mkSafetyResult true false "Command passed safety checks" "low".

(** The verdicts of the first and third rule of [check_command]. *)
Definition blocked_verdict : SafetyResult :=
  mkSafetyResult false false
    "Blocked: Critical destructive pattern detected" "critical".

Definition safe_verdict : SafetyResult :=
  mkSafetyResult true false "Read-only safe command" "low".

Definition critical_paths : list string := [
  "/"; "/boot"; "/dev"; "/proc"; "/sys";
  "/etc/passwd"; "/etc/shadow"; "/etc/sudoers"
].

(** [Safety.check_file_operation] *)
Definition check_file_operation (path operation : string) : SafetyResult :=
  let path := strip path in
  if mem operation ["write"; "delete"]
     && existsb (fun critical =>
                   String.eqb path critical
                   || startswith path (critical ++ "/")) critical_paths then
    mkSafetyResult false false
      ("Blocked: Cannot " ++ operation ++ " critical system path: " ++ path)
      "critical"
  else if String.eqb operation "write" && startswith path "/etc/" then
    mkSafetyResult true true ("Modifying system configuration: " ++ path) "high"
  else
    mkSafetyResult true false "File operation is safe" "low".

(** Loop state of [Safety.sanitize_command]. *)
Record SanitizeState : Type := mkSanitizeState {
  in_quotes : bool;
  quote_char : option ascii;
  sanitized : list ascii
}.

(** Whether [char] is one of the two quote characters; the double quote
    has code 34. *)
Definition is_quote (char : ascii) : bool :=
  Ascii.eqb char "034" || Ascii.eqb char "'".

(** One round of the loop over the characters of the command. *)
Definition sanitize_step (st : SanitizeState) (char : ascii) : SanitizeState :=
  let st' :=
    if is_quote char then
      if negb (in_quotes st) then
        mkSanitizeState true (Some char) (sanitized st)
      else
        match quote_char st with
        | Some q =>
            if Ascii.eqb char q
            then mkSanitizeState false None (sanitized st)
            else st
        | None => st
        end
    else st in
  mkSanitizeState (in_quotes st') (quote_char st') (sanitized st' ++ [char]).

(** [Safety.sanitize_command] *)
Definition sanitize_command (command : string) : string :=
  let final :=
    fold_left sanitize_step (list_ascii_of_string command)
              (mkSanitizeState false None []) in
  string_of_list_ascii (sanitized final).

(** The verdicts of the remaining rules of [check_command]. *)
Definition empty_verdict : SafetyResult :=
  mkSafetyResult false false "Empty command" "low".

Definition high_risk_verdict : SafetyResult :=
  mkSafetyResult true true "High risk operation detected" "high".

Definition strict_verdict : SafetyResult :=
  mkSafetyResult true true "High safety mode: confirmation required" "medium".

Definition listed_verdict : SafetyResult :=
  mkSafetyResult true true "Command requires confirmation" "medium".

Definition passed_verdict : SafetyResult :=
  mkSafetyResult true false "Command passed safety checks" "low".

(** *** Further operations of the module *)

(** [Safety.validate_ssh_command] *)
Definition validate_ssh_command (self : Safety) (command : string)
           (allow_sudo : bool) : SafetyResult :=
  if startswith (strip command) "sudo " then
    if negb allow_sudo then
      mkSafetyResult false false "sudo commands not allowed on this VPS" "high"
    else
      mkSafetyResult true true "sudo command requires confirmation" "high"
  else check_command self command.

(** The two verdicts of [validate_ssh_command] on a [sudo] command. *)
Definition sudo_denied_verdict : SafetyResult :=
  mkSafetyResult false false "sudo commands not allowed on this VPS" "high".

Definition sudo_confirm_verdict : SafetyResult :=
  mkSafetyResult true true "sudo command requires confirmation" "high".

(** [effects.append(...)] under a condition. *)
Definition when (b : bool) (lines : list string) : list string :=
  if b then lines else [].

(** [DryRun._analyze_effects] *)
Definition _analyze_effects (command : string) : list string :=
  let effects :=
    (when (contains "rm " command)
       (when (contains "-r" command || contains "-R" command)
             ["Will recursively delete directories"]
        ++ when (contains "-f" command)
                ["Will force deletion without prompts"]
        ++ ["Files/directories will be permanently removed"])
     ++ when (contains "cp " command) ["Will copy files"]
     ++ when (contains "mv " command) ["Will move/rename files"]
     ++ when (contains "apt install" command || contains "yum install" command)
             ["Will download and install packages"; "May require disk space"]
     ++ when (contains "apt remove" command || contains "yum remove" command)
             ["Will uninstall packages"]
     ++ when (contains "systemctl" command)
             (if contains "start" command then ["Will start a service"]
              else if contains "stop" command then ["Will stop a service"]
              else if contains "restart" command
                   then ["Will restart a service (brief downtime)"]
                   else [])
     ++ when (contains "ufw " command || contains "iptables" command)
             ["Will modify firewall rules"; "May affect network connectivity"]
     ++ when (contains "useradd" command || contains "adduser" command)
             ["Will create a new user account"]
     ++ when (contains "userdel" command || contains "deluser" command)
             ["Will delete a user account"])%list in
  match effects with
  | [] => ["No obvious side effects detected";
           "Review command carefully before proceeding"]
  | _ => effects
  end.

End Safety.

(* ===================================================================== *)
(** ** src/executor.py *)
(* ===================================================================== *)

Module Executor.
Import PyStr.

(** [ExecutionResult] without its [duration]. *)
Record ExecutionResult : Type := mkResult {
  success : bool;
  command : string;
  stdout : string;
  stderr : string;
  return_code : Z;
  retries : Z;
  error_message : string
}.

(** What one local attempt ([Popen] and [communicate]) does. *)
Inductive LocalOutcome : Type :=
| LExited (rc : Z) (out err : string)
| LTimeoutExpired                      (* subprocess.TimeoutExpired *)
| LRaised (e : string).                (* any other Exception, [str(e)] *)

(** What one remote attempt (connect, [exec_command], read) does. *)
Inductive RemoteOutcome : Type :=
| RExited (rc : Z) (out err : string)
| RSSHException (e : string)           (* paramiko.SSHException and its
                                          subclasses, [str(e)] *)
| RRaised (e : string).                (* any other Exception, [str(e)] *)

(** The [ssh_config] dictionary the bot builds. *)
Record SshConfig : Type := mkSsh {
  host : string;
  user : string;
  port : Z;
  ssh_key : string
}.

(** The environment: what the n-th attempt (counted over the whole run)
    of a command yields, how many attempts were made so far, and which
    commands they ran, oldest first. *)
Record World : Type := mkWorld {
  run_local : string -> nat -> LocalOutcome;
  run_remote : SshConfig -> string -> nat -> RemoteOutcome;
  clock : nat;
  trace : list string
}.

(** One more attempt of [cmd] has been made. *)
Definition tick (w : World) (cmd : string) : World :=
  {| run_local := run_local w; run_remote := run_remote w;
     clock := S (clock w); trace := (trace w ++ [cmd])%list |}.

Record Executor : Type := mkExecutor {
  max_retries : Z;
  timeout : Z;
  use_cline : bool;
  cline_path : option string
}.

(** The bound of the [while] loops: [max_retries if retry_on_failure else 0]. *)
Definition retry_bound (self : Executor) (retry_on_failure : bool) : Z :=
  if retry_on_failure then max_retries self else 0.

(** The [while] loop of [_execute_local]; [fuel] bounds the number of times
    the loop condition is evaluated, [None] means it ran out. *)
Fixpoint local_loop (self : Executor) (command : string)
         (retry_on_failure : bool) (fuel : nat) (retries : Z) (w : World)
  : option (ExecutionResult * World) :=
  match fuel with
  | O => None
  | S fuel' =>
      if (retries <=? retry_bound self retry_on_failure)%Z then
        let w' := tick w command in
        match run_local w command (clock w) with
        | LExited return_code stdout stderr =>
            if (return_code =? 0)%Z then
              Some (mkResult true command stdout stderr return_code retries "", w')
            else if retry_on_failure && (retries <? max_retries self)%Z then
              local_loop self command retry_on_failure fuel' (retries + 1)%Z w'
            else
              Some (mkResult false command stdout stderr return_code retries
                      ("Command failed with exit code " ++ str_of_Z return_code),
                    w')
        | LTimeoutExpired =>
            Some (mkResult false command "" "" (-1) retries
                    ("Command timed out after " ++ str_of_Z (timeout self) ++ "s"),
                  w')
        | LRaised e =>
            Some (mkResult false command "" e (-1) retries
                    ("Execution error: " ++ e), w')
        end
      else
        Some (mkResult false command "" "" (-1) retries "Max retries exceeded", w)
  end.

(** Enough fuel for every run of either loop. *)
Definition loop_fuel (self : Executor) (retry_on_failure : bool) : nat :=
  S (Z.to_nat (retry_bound self retry_on_failure + 1)).

(** [Executor._execute_local] *)
Definition _execute_local (self : Executor) (command : string)
           (retry_on_failure : bool) (w : World)
  : option (ExecutionResult * World) :=
  local_loop self command retry_on_failure
             (loop_fuel self retry_on_failure) 0%Z w.

(** [Executor._execute_with_cline]: falls back to direct execution. *)
Definition _execute_with_cline (self : Executor) (command : string)
           (retry_on_failure : bool) (w : World)
  : option (ExecutionResult * World) :=
  _execute_local self command retry_on_failure w.

(** The [while] loop of [_execute_remote]; each round opens its own SSH
    client and closes it in [finally]. *)
Fixpoint remote_loop (self : Executor) (command : string)
         (ssh_config : SshConfig) (retry_on_failure : bool)
         (fuel : nat) (retries : Z) (w : World)
  : option (ExecutionResult * World) :=
  match fuel with
  | O => None
  | S fuel' =>
      if (retries <=? retry_bound self retry_on_failure)%Z then
        let w' := tick w command in
        match run_remote w ssh_config command (clock w) with
        | RExited return_code stdout_text stderr_text =>
            if (return_code =? 0)%Z then
              Some (mkResult true command stdout_text stderr_text
                      return_code retries "", w')
            else if retry_on_failure && (retries <? max_retries self)%Z then
              remote_loop self command ssh_config retry_on_failure fuel'
                          (retries + 1)%Z w'
            else
              Some (mkResult false command stdout_text stderr_text
                      return_code retries
                      ("Command failed with exit code " ++ str_of_Z return_code),
                    w')
        | RSSHException e =>
            Some (mkResult false command "" e (-1) retries
                    ("SSH error: " ++ e), w')
        | RRaised e =>
            Some (mkResult false command "" e (-1) retries
                    ("Execution error: " ++ e), w')
        end
      else
        Some (mkResult false command "" "" (-1) retries "Max retries exceeded", w)
  end.

(** [Executor._execute_remote] *)
Definition _execute_remote (self : Executor) (command : string)
           (ssh_config : SshConfig) (retry_on_failure : bool) (w : World)
  : option (ExecutionResult * World) :=
  remote_loop self command ssh_config retry_on_failure
              (loop_fuel self retry_on_failure) 0%Z w.

(** Truthiness of an optional [str]: [None] and the empty text are false. *)
Definition opt_truthy (o : option string) : bool :=
  match o with Some s => truthy s | None => false end.

(** [Executor.execute]: remote when both [vps] and [ssh_config] are truthy. *)
Definition execute (self : Executor) (command : string)
           (vps : option string) (ssh_config : option SshConfig)
           (retry_on_failure : bool) (use_cline_arg : option bool) (w : World)
  : option (ExecutionResult * World) :=
  match (if opt_truthy vps then ssh_config else None) with
  | Some cfg => _execute_remote self command cfg retry_on_failure w
  | None =>
      let use_cline_exec :=
        match use_cline_arg with Some b => b | None => use_cline self end in
      if use_cline_exec && opt_truthy (cline_path self)
      then _execute_with_cline self command retry_on_failure w
      else _execute_local self command retry_on_failure w
  end.

(** The world after [n] more attempts of [cmd]. *)
Fixpoint ticks (w : World) (cmd : string) (n : nat) : World :=
  match n with
  | O => w
  | S n' => ticks (tick w cmd) cmd n'
  end.

(** The exit status of an attempt that ran to completion. *)
Definition local_exit (o : LocalOutcome) : option Z :=
  match o with LExited rc _ _ => Some rc | _ => None end.

Definition remote_exit (o : RemoteOutcome) : option Z :=
  match o with RExited rc _ _ => Some rc | _ => None end.

(** The exit status of attempt number [n] of [command], on the target
    [execute] chooses for [vps] and [ssh_config]. *)
Definition attempt_exit (w : World) (vps : option string)
           (ssh_config : option SshConfig) (command : string) (n : nat)
  : option Z :=
  match (if opt_truthy vps then ssh_config else None) with
  | Some cfg => remote_exit (run_remote w cfg command n)
  | None => local_exit (run_local w command n)
  end.

(** An attempt that ran to completion with a nonzero exit status. *)
Definition failed_exit (o : option Z) : bool :=
  match o with Some rc => negb (rc =? 0)%Z | None => false end.

(** The [for] loop of [execute_batch], with the results gathered so far. *)
Fixpoint batch_loop (self : Executor) (commands : list string)
         (vps : option string) (ssh_config : option SshConfig)
         (stop_on_error : bool) (results : list ExecutionResult) (w : World)
  : option (list ExecutionResult * World) :=
  match commands with
  | [] => Some (results, w)
  | command :: rest =>
      match execute self command vps ssh_config true None w with
      | None => None
      | Some (result, w') =>
          let results := (results ++ [result])%list in
          if negb (success result) && stop_on_error
          then Some (results, w')
          else batch_loop self rest vps ssh_config stop_on_error results w'
      end
  end.

(** [Executor.execute_batch] *)
Definition execute_batch (self : Executor) (commands : list string)
           (vps : option string) (ssh_config : option SshConfig)
           (stop_on_error : bool) (w : World)
  : option (list ExecutionResult * World) :=
  batch_loop self commands vps ssh_config stop_on_error [] w.

(** The attempts of a run that tried the first commands of [commands] in
    order, command number [i] as often as [counts] says at index [i]. *)
Definition attempts (commands : list string) (counts : list nat)
  : list string :=
  concat (zip_with (fun c n => repeat c n) commands counts).

(** The flags of a result agree: a success has exit status 0 and no error
    message, a failure has neither. *)
Definition well_shaped (r : ExecutionResult) : Prop :=
  (success r = true <-> return_code r = 0%Z)
  /\ (success r = true <-> error_message r = "").

(** *** [CommandBuilder] *)

(** The characters [shlex.quote] leaves alone: ASCII letters, digits, the
    underscore and [@%+=:,./-]. *)
Definition safe_char (c : ascii) : bool :=
  let n := code c in
  (((48 <=? n) && (n <=? 57)) || ((65 <=? n) && (n <=? 90))
   || ((97 <=? n) && (n <=? 122)) || (n =? 95)
   || (n =? 64) || (n =? 37) || (n =? 43) || (n =? 61) || (n =? 58)
   || (n =? 44) || (n =? 46) || (n =? 47) || (n =? 45))%N.

Fixpoint all_safe (s : string) : bool :=
  match s with
  | EmptyString => true
  | String c s' => safe_char c && all_safe s'
  end.

(** The five characters that stand for a single quote inside single
    quotes: quote, double quote, quote, double quote, quote. *)
Definition quoted_quote : string :=
  String "'" (String "034" (String "'" (String "034" (String "'" "")))).

(** [s.replace] of every single quote by [quoted_quote]. *)
Fixpoint replace_quotes (s : string) : string :=
  match s with
  | EmptyString => EmptyString
  | String c s' =>
      if Ascii.eqb c "'" then quoted_quote ++ replace_quotes s'
      else String c (replace_quotes s')
  end.

(** [shlex.quote], which is also [CommandBuilder.escape_argument]. *)
Definition shlex_quote (s : string) : string :=
  if String.eqb s "" then "''"
  else if all_safe s then s
  else "'" ++ replace_quotes s ++ "'".

Definition escape_argument (arg : string) : string := shlex_quote arg.

(** [' '.join(parts)] *)
Definition join_spaces (parts : list string) : string :=
  String.concat " " parts.

(** [CommandBuilder.build_safe_rm] *)
Definition build_safe_rm (paths : list string) (recursive : bool) : string :=
  let escaped_paths := map shlex_quote paths in
  if recursive then "rm -r " ++ join_spaces escaped_paths
  else "rm " ++ join_spaces escaped_paths.

Definition valid_actions : list string :=
  ["start"; "stop"; "restart"; "reload"; "status"; "enable"; "disable"].

(** [CommandBuilder.build_systemctl]; [inl] is the [ValueError] raised for
    an action that is not valid, with its message. *)
Definition build_systemctl (action service : string) : string + string :=
  if negb (mem action valid_actions) then inl ("Invalid action: " ++ action)
  else inr ("systemctl " ++ action ++ " " ++ shlex_quote service).

(** [CommandBuilder.build_apt_install] *)
Definition build_apt_install (packages : list string) (yes : bool) : string :=
  let escaped_packages := map shlex_quote packages in
  let cmd := "apt install" in
  let cmd := if yes then cmd ++ " -y" else cmd in
  cmd ++ " " ++ join_spaces escaped_packages.

(** *** Sample executors and environments *)

(** [Executor()] where no Cline executable is found. *)
Definition default_executor : Executor := mkExecutor 3 300 true None.

(** An executor configured with a negative retry budget. *)
Definition negative_executor : Executor := mkExecutor (-1) 300 true None.

Definition fresh_world (l : string -> nat -> LocalOutcome)
           (r : SshConfig -> string -> nat -> RemoteOutcome) : World :=
  mkWorld l r 0 [].

(** Every command succeeds at once. *)
Definition calm_world : World :=
  fresh_world (fun _ _ => LExited 0 "" "") (fun _ _ _ => RExited 0 "" "").


(** The first two attempts exit with status 1, later ones succeed. *)
Definition flaky_world : World :=
  fresh_world
    (fun _ n => if (n <? 2)%nat then LExited 1 "" "busy" else LExited 0 "ok" "")
    (fun _ _ n => if (n <? 2)%nat then RExited 1 "" "busy" else RExited 0 "ok" "").

(** The SSH server rejects the credentials. *)
Definition ssh_down_world : World :=
  fresh_world (fun _ _ => LExited 0 "" "")
              (fun _ _ _ => RSSHException "Authentication failed.").

(** Only the command [false] fails. *)
Definition picky_world : World :=
  fresh_world
    (fun cmd _ => if String.eqb cmd "false" then LExited 1 "" ""
                  else LExited 0 "" "")
    (fun _ _ _ => RExited 0 "" "").

Definition sample_ssh : SshConfig := mkSsh "203.0.113.7" "root" 22 "".

End Executor.

(* ===================================================================== *)
(** ** src/bot.py: confirmation handling *)
(* ===================================================================== *)

Module Bot.
Import PyStr Executor.

(** [VPSConfig], the fields the bot reads. *)
Record VPSConfig : Type := mkVPS {
  vps_name : string;
  vps_host : string;
  vps_user : string;
  vps_port : Z;
  vps_ssh_key : string
}.

(** A value of [pending_confirmations]: commands awaiting a yes or no. *)
Record Pending : Type := mkPending {
  commands : list string;
  context : gmap string string;
  timestamp : nat
}.

(** Texts handed to the transport or the history store.  The rendering of
    the composed ones is not modelled; they carry the data they show. *)
Inductive Message : Type :=
| MExecuting
| MCancelled
| MReprompt      (* Please respond with 'yes' to proceed or 'no' to cancel *)
| MFailure (i : nat) (cmd : string) (result : ExecutionResult)
           (fix_cmd : option string)
| MSuccess (cmds : list string) (results : list ExecutionResult).

(** What the handler does to its collaborators, in order. *)
Inductive Event : Type :=
| Send (m : Message)                          (* context.send           *)
| AddConversation (user_id role : string) (m : Message)
| LogCommand (cmd user_id : string) (vps : option string)
| LogResult (cmd : string) (result : ExecutionResult)
| AddCommand (user_id cmd : string) (vps : option string)
             (result : ExecutionResult).

(** The state of a [ClideBot] the handlers touch.  [suggest_fix] stands for
    [brain.suggest_fix], [now] for the reading of [time.time()]. *)
Record ClideBot : Type := mkBot {
  vps_list : list VPSConfig;
  executor : Executor;
  suggest_fix : string -> string -> option string;
  now : nat;
  pending_confirmations : gmap string Pending;
  events : list Event;
  world : World
}.

Inductive Error : Type :=
| KeyError (key : string)
| OutOfFuel.

Definition emit (self : ClideBot) (es : list Event) : ClideBot :=
  {| vps_list := vps_list self; executor := executor self;
     suggest_fix := suggest_fix self; now := now self;
     pending_confirmations := pending_confirmations self;
     events := events self ++ es; world := world self |}.

Definition set_pending (self : ClideBot) (m : gmap string Pending) : ClideBot :=
  {| vps_list := vps_list self; executor := executor self;
     suggest_fix := suggest_fix self; now := now self;
     pending_confirmations := m;
     events := events self; world := world self |}.

Definition set_world (self : ClideBot) (w : World) : ClideBot :=
  {| vps_list := vps_list self; executor := executor self;
     suggest_fix := suggest_fix self; now := now self;
     pending_confirmations := pending_confirmations self;
     events := events self; world := w |}.

(** [Config.get_vps] *)
Definition get_vps (self : ClideBot) (name : string) : option VPSConfig :=
  List.find (fun v => String.eqb (vps_name v) name) (vps_list self).

(** The [for] loop of [_execute_commands]; [i] counts from 1. *)
Fixpoint execute_loop (self : ClideBot) (user_id : string)
         (all_commands : list string) (ai_context : gmap string string)
         (vps : option string) (ssh_config : option SshConfig)
         (i : nat) (todo : list string) (results : list ExecutionResult)
  : Error + ClideBot :=
  match todo with
  | [] =>
      let success_msg := MSuccess all_commands results in
      inr (emit self [AddConversation user_id "assistant" success_msg;
                      Send success_msg])
  | cmd :: rest =>
      let self := emit self [LogCommand cmd user_id vps] in
      match execute (executor self) cmd vps ssh_config true None (world self) with
      | None => inl OutOfFuel
      | Some (result, w') =>
          let self := set_world self w' in
          let results := (results ++ [result])%list in
          let self := emit self [LogResult cmd result;
                                 AddCommand user_id cmd vps result] in
          if negb (success result) then
            let error_text :=
              if truthy (stderr result) then stderr result
              else error_message result in
            let fix_cmd := suggest_fix self cmd error_text in
            let self :=
              match fix_cmd with
              | Some f =>
                  if truthy f then
                    set_pending self
                      (<[user_id := mkPending [f] ai_context (now self)]>
                         (pending_confirmations self))
                  else self
              | None => self
              end in
            let error_msg := MFailure i cmd result
                               (if opt_truthy fix_cmd then fix_cmd else None) in
            inr (emit self [AddConversation user_id "assistant" error_msg;
                            Send error_msg])
          else
            execute_loop self user_id all_commands ai_context vps ssh_config
                         (S i) rest results
      end
  end.

(** [ClideBot._execute_commands] *)
Definition _execute_commands (self : ClideBot) (user_id : string)
           (commands : list string) (ai_context : gmap string string)
  : Error + ClideBot :=
  let vps := ai_context !! "vps" in
  let ssh_config :=
    if opt_truthy vps then
      match get_vps self (default "" vps) with
      | Some v => Some (mkSsh (vps_host v) (vps_user v) (vps_port v)
                              (vps_ssh_key v))
      | None => None
      end
    else None in
  execute_loop self user_id commands ai_context vps ssh_config 1 commands [].

Definition AFFIRMATIVE : list string := ["yes"; "y"; "confirm"; "proceed"].
Definition NEGATIVE : list string := ["no"; "n"; "cancel"; "abort"].

(** [ClideBot._handle_confirmation]; [dict.pop] raises [KeyError] on a
    missing key. *)
Definition _handle_confirmation (self : ClideBot) (user_id response : string)
  : Error + ClideBot :=
  let response_lower := strip (lower response) in
  if mem response_lower AFFIRMATIVE then
    match pending_confirmations self !! user_id with
    | None => inl (KeyError user_id)
    | Some pending =>
        let self := set_pending self (delete user_id (pending_confirmations self)) in
        let self := emit self [Send MExecuting] in
        _execute_commands self user_id (commands pending) (context pending)
    end
  else if mem response_lower NEGATIVE then
    match pending_confirmations self !! user_id with
    | None => inl (KeyError user_id)
    | Some _ =>
        let self := set_pending self (delete user_id (pending_confirmations self)) in
        inr (emit self [AddConversation user_id "assistant" MCancelled;
                        Send MCancelled])
    end
  else
    inr (emit self [Send MReprompt]).

(** The [ssh_config] that [_execute_commands] builds for a context: the
    configured VPS of that name, when the context names one. *)
Definition ssh_config_for (self : ClideBot) (ai_context : gmap string string)
  : option SshConfig :=
  if opt_truthy (ai_context !! "vps") then
    match get_vps self (default "" (ai_context !! "vps")) with
    | Some v => Some (mkSsh (vps_host v) (vps_user v) (vps_port v)
                            (vps_ssh_key v))
    | None => None
    end
  else None.

(** The results handed to [logger.log_result], oldest first. *)
Fixpoint logged_results (es : list Event) : list ExecutionResult :=
  match es with
  | [] => []
  | LogResult _ result :: es' => result :: logged_results es'
  | _ :: es' => logged_results es'
  end.

(** The text handed to [brain.suggest_fix] for a failed result:
    [result.stderr or result.error_message]. *)
Definition error_text (result : ExecutionResult) : string :=
  if truthy (stderr result) then stderr result else error_message result.

(** *** A sample bot *)

(** A bot with one user awaiting confirmation; no fix is ever suggested. *)
Definition sample_bot : ClideBot :=
  mkBot [] default_executor (fun _ _ => None) 0
        {[ "+15550100" := mkPending ["systemctl stop nginx"] ∅ 0 ]}
        [] calm_world.

(** A bot whose user has the suggested fix [rm -rf /] pending, and one
    where a second user waits as well. *)
Definition risky_bot : ClideBot :=
  mkBot [] default_executor (fun _ _ => None) 0
        {[ "+15550100" := mkPending ["rm -rf /"] ∅ 0 ]}
        [] calm_world.

Definition shared_bot : ClideBot :=
  mkBot [] default_executor (fun _ _ => None) 0
        (<[ "+15550199" := mkPending ["reboot"] ∅ 0 ]>
           {[ "+15550100" := mkPending ["systemctl stop nginx"] ∅ 0 ]})
        [] calm_world.

(** A bot with nothing pending whose interpreter answers every failure
    with the fix [rm -rf /], in a world where [false] fails. *)
Definition fixing_bot : ClideBot :=
  mkBot [] default_executor (fun _ _ => Some "rm -rf /") 0 ∅ [] picky_world.

End Bot.

(* ===================================================================== *)
(** ** src/bot.py: message handling *)
(* ===================================================================== *)

Module Orchestrator.
Import PyStr Safety Executor Bot.

(** What the probe of [Executor.test_connection] (connect, then run
    [echo "test"]) does. *)
Inductive ProbeOutcome : Type :=
| PEcho (output : string)              (* the text read from stdout *)
| PAuthenticationException
| PSSHException (e : string)
| PRaised (e : string).

(** The message [test_connection] returns; its rendering is not modelled. *)
Inductive ProbeMessage : Type :=
| PConnected (host : string)
| PCommandTestFailed
| PAuthenticationFailed
| PSSHError (e : string)
| PConnectionFailed (e : string).

(** [Executor.test_connection], over the outcome of its probe. *)
Definition test_connection (probe : SshConfig -> ProbeOutcome)
           (ssh_config : SshConfig) : bool * ProbeMessage :=
  match probe ssh_config with
  | PEcho output =>
      if String.eqb (strip output) "test"
      then (true, PConnected (host ssh_config))
      else (false, PCommandTestFailed)
  | PAuthenticationException => (false, PAuthenticationFailed)
  | PSSHException e => (false, PSSHError e)
  | PRaised e => (false, PConnectionFailed e)
  end.

(** What the message handlers do besides what [Bot.Event] records.  The
    order of these notes among the events of the bot is not represented. *)
Inductive Note : Type :=
| Heard (user_id text : string)        (* add_conversation(user_id, "user") *)
| Unauthorized (user_id : string)      (* logger.warning *)
| Replied (user_id response_text : string)
| Blocked (user_id : string) (items : list (string * string))
| Previewed (user_id subject : string) (ai_context : gmap string string)
| Help
| Status (user_id : string)
| SwitchUsage
| SwitchUnknown (name : string)
| Switched (user_id name : string) (m : ProbeMessage)
| SwitchFailed (name : string) (m : ProbeMessage).

(** A [ClideBot] with the further state its message handlers use.
    [process_message] stands for [brain.process_message] and returns the
    reply and the commands of [command_data], if any; [remembered] stands
    for what [memory] adds to the context; both may depend on the number
    of notes taken so far. *)
Record Orchestrator : Type := mkOrchestrator {
  bot : ClideBot;
  safety : Safety;
  confirm_all : bool;
  admin_only : bool;
  allowed_numbers : list string;
  current_vps : gmap string string;
  process_message :
    nat -> string -> string -> gmap string string ->
    string * option (list string);
  remembered : nat -> string -> gmap string string;
  probe : SshConfig -> ProbeOutcome;
  notes : list Note
}.

Definition note (self : Orchestrator) (ns : list Note) : Orchestrator :=
  {| bot := bot self; safety := safety self; confirm_all := confirm_all self;
     admin_only := admin_only self; allowed_numbers := allowed_numbers self;
     current_vps := current_vps self;
     process_message := process_message self; remembered := remembered self;
     probe := probe self; notes := notes self ++ ns |}.

Definition set_bot (self : Orchestrator) (b : ClideBot) : Orchestrator :=
  {| bot := b; safety := safety self; confirm_all := confirm_all self;
     admin_only := admin_only self; allowed_numbers := allowed_numbers self;
     current_vps := current_vps self;
     process_message := process_message self; remembered := remembered self;
     probe := probe self; notes := notes self |}.

Definition set_current_vps (self : Orchestrator) (m : gmap string string)
  : Orchestrator :=
  {| bot := bot self; safety := safety self; confirm_all := confirm_all self;
     admin_only := admin_only self; allowed_numbers := allowed_numbers self;
     current_vps := m;
     process_message := process_message self; remembered := remembered self;
     probe := probe self; notes := notes self |}.

(** [ClideBot._build_context]: the current VPS of the user, overridden by
    what the memory holds under the same key. *)
Definition _build_context (self : Orchestrator) (user_id : string)
  : gmap string string :=
  remembered self (length (notes self)) user_id
  ∪ match current_vps self !! user_id with
    | Some v => {[ "vps" := v ]}
    | None => ∅
    end.

(** Loop state of the safety check in [_process_command]. *)
Record Gate : Type := mkGate {
  all_safe : bool;
  needs_confirmation : bool;
  safety_messages : list (string * string)
}.

(** One round of the loop over the commands. *)
Definition gate_step (s : Safety) (g : Gate) (cmd : string) : Gate :=
  let safety_result := check_command s cmd in
  if negb (is_safe safety_result) then
    mkGate false (needs_confirmation g)
           (safety_messages g ++ [(cmd, reason safety_result)])
  else if requires_confirmation safety_result then
    mkGate (all_safe g) true (safety_messages g)
  else g.

(** The first argument of [DryRun.preview_command]. *)
Definition preview_subject (commands : list string) : string :=
  match commands with
  | [cmd] => cmd
  | _ => str_of_Z (Z.of_nat (length commands)) ++ " commands"
  end.

(** [ClideBot._process_command] *)
Definition _process_command (self : Orchestrator) (user_id message : string)
  : Error + Orchestrator :=
  let ai_context := _build_context self user_id in
  let answer :=
    process_message self (length (notes self)) user_id message ai_context in
  match snd answer with
  | None => inr (note self [Replied user_id (fst answer)])
  | Some commands =>
      let gate := fold_left (gate_step (safety self)) commands
                            (mkGate true false []) in
      if negb (all_safe gate) then
        inr (note self [Blocked user_id (safety_messages gate)])
      else if needs_confirmation gate || confirm_all self then
        let pending := mkPending commands ai_context (now (bot self)) in
        let b := set_pending (bot self)
                   (<[user_id := pending]> (pending_confirmations (bot self))) in
        inr (note (set_bot self b)
                  [Previewed user_id (preview_subject commands) ai_context])
      else
        match _execute_commands (bot self) user_id commands ai_context with
        | inl e => inl e
        | inr b => inr (set_bot self b)
        end
  end.

(** The first word of a text that does not start with whitespace, and
    what follows it. *)
Fixpoint first_word (s : string) : string :=
  match s with
  | EmptyString => EmptyString
  | String c s' => if isspace c then EmptyString else String c (first_word s')
  end.

Fixpoint after_word (s : string) : string :=
  match s with
  | EmptyString => EmptyString
  | String c s' => if isspace c then s else after_word s'
  end.

(** [s.split(maxsplit=1)] *)
Definition split_once (s : string) : list string :=
  let s := lstrip s in
  if String.eqb s "" then []
  else
    let rest := lstrip (after_word s) in
    if String.eqb rest "" then [first_word s] else [first_word s; rest].

(** [ClideBot._switch_vps] *)
Definition _switch_vps (self : Orchestrator) (user_id message : string)
  : Orchestrator :=
  match split_once message with
  | [_; rest] =>
      let vps_name := strip rest in
      match get_vps (bot self) vps_name with
      | None => note self [SwitchUnknown vps_name]
      | Some v =>
          let ssh_config := mkSsh (vps_host v) (vps_user v) (vps_port v)
                                  (vps_ssh_key v) in
          let test := test_connection (probe self) ssh_config in
          if fst test then
            note (set_current_vps self
                    (<[user_id := vps_name]> (current_vps self)))
                 [Switched user_id vps_name (snd test)]
          else note self [SwitchFailed vps_name (snd test)]
      end
  | _ => note self [SwitchUsage]
  end.

(** [ClideBot._handle_message] *)
Definition _handle_message (self : Orchestrator) (user_id message_text : string)
  : Error + Orchestrator :=
  let self := note self [Heard user_id message_text] in
  if admin_only self && negb (mem user_id (allowed_numbers self)) then
    inr (note self [Unauthorized user_id])
  else if bool_decide (is_Some (pending_confirmations (bot self) !! user_id))
  then
    match _handle_confirmation (bot self) user_id message_text with
    | inl e => inl e
    | inr b => inr (set_bot self b)
    end
  else if mem (lower message_text) ["help"; "/help"] then
    inr (note self [Help])
  else if mem (lower message_text) ["status"; "/status"] then
    inr (note self [Status user_id])
  else if startswith (lower message_text) "switch " then
    inr (_switch_vps self user_id message_text)
  else _process_command self user_id message_text.

(** *** A sample orchestrator *)

(** The interpreter proposes a disk check and a wipe for every request. *)
Definition sample_orchestrator : Orchestrator :=
  mkOrchestrator
    (mkBot [mkVPS "prod" "203.0.113.7" "root" 22 ""] default_executor
           (fun _ _ => None) 0 ∅ [] calm_world)
    (Safety.init None None "medium") false true ["+15550100"] ∅
    (fun _ _ _ _ => ("Checking and wiping", Some ["df -h"; "rm -rf /"]))
    (fun _ _ => ∅)
    (fun _ => PEcho "test")
    [].

(** The interpreter proposes to stop a service for every request. *)
Definition cautious_orchestrator : Orchestrator :=
  mkOrchestrator
    (mkBot [] default_executor (fun _ _ => None) 0 ∅ [] calm_world)
    (Safety.init None None "medium") false false [] ∅
    (fun _ _ _ _ => ("Stopping nginx", Some ["systemctl stop nginx"]))
    (fun _ _ => ∅)
    (fun _ => PEcho "test")
    [].

(** A user of [sample_bot] waits for a confirmation; the interpreter would
    propose [uptime]. *)
Definition waiting_orchestrator : Orchestrator :=
  mkOrchestrator sample_bot (Safety.init None None "medium") false false []
    ∅ (fun _ _ _ _ => ("Checking", Some ["uptime"])) (fun _ _ => ∅)
    (fun _ => PEcho "test") [].

End Orchestrator.

(* ===================================================================== *)
(** * Properties *)
(* ===================================================================== *)

Import PyStr Re.

(** ** Strings *)

Lemma sapp_nil_l (s : string) : "" ++ s = s.
Proof. reflexivity. Qed.

Lemma sapp_cons (c : ascii) (s t : string) : String c s ++ t = String c (s ++ t).
Proof. reflexivity. Qed.

Lemma sapp_nil_r (s : string) : s ++ "" = s.
Proof. induction s as [|c s IH]; [reflexivity|]. rewrite sapp_cons, IH. reflexivity. Qed.

Lemma sapp_assoc (s t u : string) : (s ++ t) ++ u = s ++ (t ++ u).
Proof.
  induction s as [|c s IH]; [reflexivity|].
  rewrite !sapp_cons, IH. reflexivity.
Qed.

Lemma slength_app (s t : string) :
  String.length (s ++ t) = (String.length s + String.length t)%nat.
Proof.
  induction s as [|c s IH]; [reflexivity|].
  rewrite sapp_cons. cbn [String.length]. rewrite IH. reflexivity.
Qed.

Lemma sapp_eq_nil (s t : string) : s ++ t = "" -> s = "" /\ t = "".
Proof. destruct s; [rewrite sapp_nil_l; auto | rewrite sapp_cons; discriminate]. Qed.

(** Every string is empty or ends with a last character. *)
Lemma string_snoc_cases (s : string) :
  s = "" \/ exists t c, s = t ++ String c "".
Proof.
  induction s as [|c s IH]; [left; reflexivity|right].
  destruct IH as [-> | (t & d & ->)].
  - exists "", c. reflexivity.
  - exists (String c t), d. reflexivity.
Qed.

Lemma snoc_inj (s t : string) (c d : ascii) :
  s ++ String c "" = t ++ String d "" -> s = t /\ c = d.
Proof.
  revert t. induction s as [|a s IH]; intros [|b t]; rewrite ?sapp_nil_l, ?sapp_cons;
    intros H; inversion H; subst.
  - auto.
  - destruct t; discriminate.
  - destruct s; discriminate.
  - destruct (IH t) as [-> ->]; auto.
Qed.

Lemma allspace_app (s t : string) : allspace (s ++ t) = allspace s && allspace t.
Proof.
  induction s as [|c s IH]; [reflexivity|].
  rewrite sapp_cons. cbn [allspace]. rewrite IH, andb_assoc. reflexivity.
Qed.

Lemma rstrip_cons (c : ascii) (s : string) :
  rstrip (String c s) = "" /\ isspace c = true /\ rstrip s = ""
  \/ rstrip (String c s) = String c (rstrip s).
Proof.
  cbn [rstrip]. destruct (rstrip s) eqn:Hr.
  - destruct (isspace c); [left|right]; auto.
  - right. reflexivity.
Qed.

Lemma rstrip_split (s : string) :
  exists w, s = rstrip s ++ w /\ allspace w = true.
Proof.
  induction s as [|c s (w & Hw & Hsp)].
  - exists "". split; reflexivity.
  - destruct (rstrip_cons c s) as [(-> & Hc & Hr) | ->].
    + exists (String c w). rewrite Hr, sapp_nil_l in Hw. subst w.
      rewrite sapp_nil_l. cbn [allspace]. rewrite Hc, Hsp. split; reflexivity.
    + exists w. rewrite sapp_cons, <- Hw. split; [reflexivity|exact Hsp].
Qed.

(** A text that keeps its last character under [rstrip] shields what
    comes before it. *)
Lemma rstrip_app_keep (p x : string) :
  p <> "" -> rstrip p = p -> rstrip (p ++ x) = p ++ rstrip x.
Proof.
  induction p as [|c p IH]; [congruence|]. intros _ Hp.
  rewrite sapp_cons.
  destruct p as [|d p].
  - rewrite !sapp_nil_l. cbn [rstrip] in Hp |- *.
    destruct (isspace c); [discriminate|]. destruct (rstrip x); reflexivity.
  - assert (Hp' : rstrip (String d p) = String d p).
    { destruct (rstrip_cons c (String d p)) as [(H & _) | H];
        rewrite H in Hp; congruence. }
    specialize (IH ltac:(discriminate) Hp').
    destruct (rstrip_cons c (String d p ++ x)) as [(_ & _ & H) | H].
    + rewrite IH, sapp_cons in H. discriminate.
    + rewrite H, IH. reflexivity.
Qed.

Lemma isspace_spaces (c : ascii) : isspace c = true -> In c spaces.
Proof.
  destruct c as [[] [] [] [] [] [] [] []]; vm_compute; intros H;
    first [discriminate H | tauto].
Qed.

Lemma no_space_sound (cs : cset) (c : ascii) :
  no_space cs = true -> isspace c = true -> cs_mem cs c = false.
Proof.
  intros Hn Hc. unfold no_space in Hn. rewrite forallb_forall in Hn.
  apply isspace_spaces, Hn in Hc. destruct (cs_mem cs c); [discriminate|reflexivity].
Qed.

(** ** The matcher against its declarative reading *)

Lemma Matches_nullable (r : re) (m rest : string) :
  Matches r m rest -> m = "" -> nullable r = true.
Proof.
  induction 1; intros Hm; cbn [nullable]; try reflexivity; try discriminate.
  - apply sapp_eq_nil in Hm as [-> ->]. rewrite IHMatches1, IHMatches2; reflexivity.
  - rewrite IHMatches by assumption. reflexivity.
  - rewrite IHMatches by assumption. apply orb_true_r.
Qed.

Section StarLoop.
Variable a : re.
Variable k : string -> bool.
Hypothesis step_spec : forall s k',
  re_match a s k' = true <->
  exists m rest, s = m ++ rest /\ Matches a m rest /\ k' rest = true.

Lemma star_loop_sound (n : nat) : forall s,
  star_loop (re_match a) k n s = true ->
  exists m rest, s = m ++ rest /\ Matches (Star a) m rest /\ k rest = true.
Proof.
  induction n as [|n IH]; intros s; cbn [star_loop].
  - intros Hk. exists "", s. repeat split; [constructor | exact Hk].
  - intros [Hk | Hs]%orb_true_iff.
    + exists "", s. repeat split; [constructor | exact Hk].
    + apply step_spec in Hs as (m1 & rest1 & -> & Hm1 & [_ Hl]%andb_true_iff).
      apply IH in Hl as (m2 & rest & -> & Hm2 & Hk).
      exists (m1 ++ m2), rest. rewrite sapp_assoc.
      repeat split; [econstructor; eassumption | exact Hk].
Qed.

Lemma star_loop_complete (m rest : string) :
  Matches (Star a) m rest -> k rest = true ->
  forall n, (String.length (m ++ rest) < n)%nat ->
  star_loop (re_match a) k n (m ++ rest) = true.
Proof.
  intros HM Hk. remember (Star a) as r eqn:Hr. revert Hr.
  induction HM as [| | | | | a' rest | a' m1 m2 rest H1 _ H2 IH2 |];
    intros Hr; inversion Hr; subst a'; clear Hr; intros n Hn.
  - destruct n; [lia|]. cbn [star_loop]. rewrite sapp_nil_l, Hk. reflexivity.
  - specialize (IH2 Hk eq_refl).
    destruct m1 as [|c m1].
    + rewrite sapp_nil_l. apply IH2. rewrite sapp_nil_l in Hn. exact Hn.
    + destruct n; [lia|]. cbn [star_loop]. apply orb_true_iff. right.
      apply step_spec. exists (String c m1), (m2 ++ rest).
      rewrite sapp_assoc. split; [reflexivity|]. split; [exact H1|].
      rewrite sapp_assoc, slength_app in Hn.
      apply andb_true_iff. split.
      * apply Nat.ltb_lt. rewrite (slength_app (String c m1)). cbn. lia.
      * apply IH2. cbn in Hn. lia.
Qed.

End StarLoop.

Lemma re_match_spec (r : re) : forall s k,
  re_match r s k = true <->
  exists m rest, s = m ++ rest /\ Matches r m rest /\ k rest = true.
Proof.
  induction r as [| cs | a IHa b IHb | a IHa b IHb | a IHa |]; intros s k;
    cbn [re_match].
  - split.
    + intros Hk. exists "", s. repeat split; [constructor | exact Hk].
    + intros (m & rest & -> & HM & Hk). inversion HM; subst. exact Hk.
  - split.
    + destruct s as [|c s]; [discriminate|].
      intros [Hc Hk]%andb_true_iff. exists (String c ""), s.
      repeat split; [constructor; exact Hc | exact Hk].
    + intros (m & rest & -> & HM & Hk). inversion HM; subst.
      rewrite sapp_cons, sapp_nil_l. apply andb_true_iff. auto.
  - rewrite IHa. split.
    + intros (m1 & rest1 & -> & H1 & H2).
      apply IHb in H2 as (m2 & rest & -> & H2 & Hk).
      exists (m1 ++ m2), rest. rewrite sapp_assoc.
      repeat split; [constructor; assumption | exact Hk].
    + intros (m & rest & -> & HM & Hk). inversion HM; subst.
      exists m1, (m2 ++ rest). rewrite sapp_assoc.
      repeat split; [assumption|]. apply IHb. eauto.
  - rewrite orb_true_iff, IHa, IHb. split.
    + intros [(m & rest & -> & HM & Hk) | (m & rest & -> & HM & Hk)];
        exists m, rest; repeat split; auto using MAltL, MAltR.
    + intros (m & rest & -> & HM & Hk). inversion HM; subst; [left|right]; eauto.
  - split.
    + apply star_loop_sound. exact IHa.
    + intros (m & rest & -> & HM & Hk).
      apply star_loop_complete; auto.
  - split.
    + intros [He Hk]%andb_true_iff. exists "", s.
      repeat split; [constructor; exact He | exact Hk].
    + intros (m & rest & -> & HM & Hk). inversion HM; subst.
      rewrite sapp_nil_l. apply andb_true_iff. auto.
Qed.

(** [search] finds a match exactly when the text has one somewhere. *)
Lemma search_spec (r : re) (s : string) :
  search r s = true <->
  exists pre m post, s = pre ++ m ++ post /\ Matches r m post.
Proof.
  induction s as [|c s IH]; cbn [search]; rewrite orb_true_iff, re_match_spec.
  - split.
    + intros [(m & rest & E & HM & _) | H]; [|discriminate].
      exists "", m, rest. auto.
    + intros (pre & m & post & E & HM). left.
      symmetry in E. apply sapp_eq_nil in E as [-> E]. eauto.
  - rewrite IH. split.
    + intros [(m & rest & E & HM & _) | (pre & m & post & -> & HM)].
      * exists "", m, rest. auto.
      * exists (String c pre), m, post. auto.
    + intros (pre & m & post & E & HM). destruct pre as [|d pre].
      * left. rewrite sapp_nil_l in E. eauto.
      * right. rewrite sapp_cons in E. inversion E; subst. eauto.
Qed.

(** ** Matching and surrounding whitespace *)

(** A pattern without [$] does not look at what follows the match. *)
Lemma Matches_ctx (r : re) (m rest : string) :
  Matches r m rest -> eol_free r = true -> forall rest', Matches r m rest'.
Proof.
  induction 1; cbn [eol_free]; intros Hf rest'; try discriminate;
    try (apply andb_true_iff in Hf as [Hfa Hfb]); eauto using Matches.
Qed.

(** Removing the last character of what follows keeps a match. *)
Lemma Matches_drop_last (r : re) (m rest : string) :
  Matches r m rest ->
  forall x c, rest = x ++ String c "" -> Matches r m x.
Proof.
  induction 1; intros x c0 E; subst; eauto using Matches.
  - constructor; [|eauto]. eapply IHMatches1. rewrite sapp_assoc. reflexivity.
  - constructor; [|eauto]. eapply IHMatches1. rewrite sapp_assoc. reflexivity.
  - constructor. destruct x as [|d x]; [reflexivity|].
    rewrite sapp_cons in H. cbn in H. destruct x; discriminate.
Qed.

Lemma first_ok_sound (r : re) : forall c s k,
  first_ok r = true -> isspace c = true -> re_match r (String c s) k = false.
Proof.
  induction r as [| cs | a IHa b IHb | a IHa b IHb | a IHa |]; intros c s k;
    cbn [first_ok re_match]; try discriminate.
  - intros Hn Hc. rewrite (no_space_sound _ _ Hn Hc). reflexivity.
  - intros Hf Hc. apply IHa; assumption.
  - intros [Hfa Hfb]%andb_true_iff Hc. rewrite IHa, IHb by assumption. reflexivity.
Qed.

Lemma search_lstrip (r : re) (s : string) :
  first_ok r = true -> search r (lstrip s) = search r s.
Proof.
  intros Hf. induction s as [|c s IH]; [reflexivity|].
  cbn [lstrip]. destruct (isspace c) eqn:Hc; [|reflexivity].
  rewrite IH. cbn [search]. rewrite first_ok_sound by assumption. reflexivity.
Qed.

Lemma search_lstrip_back (r : re) (s : string) :
  search r (lstrip s) = true -> search r s = true.
Proof.
  induction s as [|c s IH]; [auto|].
  cbn [lstrip]. destruct (isspace c); [|auto].
  intros H. cbn [search]. rewrite (IH H). apply orb_true_r.
Qed.

Lemma Trims_star (a : re) :
  (forall m c, isspace c = true ->
               Matches a (m ++ String c "") "" -> Matches (Star a) m "") ->
  Trims (Star a).
Proof.
  intros Ha m c Hc HM.
  remember (Star a) as r eqn:Hr. remember (m ++ String c "") as t eqn:Ht.
  remember "" as rest eqn:Hrest. revert m Hr Ht Hrest.
  induction HM as [| | | | | a' rest | a' m1 m2 rest H1 _ H2 IH2 |];
    intros m0 Hr Ht Hrest; inversion Hr; subst a' rest; clear Hr.
  - destruct m0; discriminate.
  - rewrite sapp_nil_r in H1.
    destruct (string_snoc_cases m2) as [-> | (m2' & d & ->)].
    + rewrite sapp_nil_r in Ht. subst m1. eapply Ha; eassumption.
    + rewrite <- sapp_assoc in Ht. apply snoc_inj in Ht as [<- ->].
      apply MStarS.
      * rewrite sapp_nil_r. eapply Matches_drop_last; [exact H1|reflexivity].
      * apply (IH2 Ha); reflexivity.
Qed.

Lemma single_snoc (a c : ascii) (m : string) :
  String a "" = m ++ String c "" -> m = "" /\ a = c.
Proof.
  destruct m as [|d m]; [inversion 1; auto|].
  rewrite sapp_cons. destruct m; discriminate.
Qed.

Ltac snoc_nil :=
  match goal with
  | H : "" = ?m ++ String _ "" |- _ => destruct m; discriminate H
  | H : ?m ++ String _ "" = "" |- _ => destruct m; discriminate H
  end.

Lemma rtrim_sound (r : re) : rtrim r = true -> Trims r.
Proof.
  induction r as [| cs | a IHa b IHb | a IHa b IHb | a IHa |];
    cbn [rtrim]; intros Hr m c Hc HM.
  - inversion HM. snoc_nil.
  - inversion HM as [| cs' c' rest Hmem | | | | | |]; subst.
    match goal with H : String _ "" = _ |- _ => apply single_snoc in H as [-> ->] end.
    rewrite (no_space_sound _ _ Hr Hc) in Hmem. discriminate.
  - apply andb_true_iff in Hr as [Hb Ha].
    inversion HM as [| | a' b' m1 m2 rest H1 H2 | | | | |]; subst.
    match goal with H : m1 ++ m2 = _ |- _ => rename H into E end.
    rewrite sapp_nil_r in H1.
    destruct (string_snoc_cases m2) as [-> | (m2' & d & ->)].
    + rewrite sapp_nil_r in E. subst m1.
      rewrite (Matches_nullable _ _ _ H2 eq_refl), orb_false_r in Ha.
      rewrite <- (sapp_nil_r m). apply MSeq; [|exact H2].
      rewrite sapp_nil_l. exact (IHa Ha m c Hc H1).
    + rewrite <- sapp_assoc in E. apply snoc_inj in E as [<- ->].
      apply MSeq; [|exact (IHb Hb m2' c Hc H2)].
      rewrite sapp_nil_r. eapply Matches_drop_last; [exact H1|reflexivity].
  - apply andb_true_iff in Hr as [Ha Hb].
    inversion HM; subst; [apply MAltL, (IHa Ha m c Hc) | apply MAltR, (IHb Hb m c Hc)];
      assumption.
  - refine (Trims_star a _ m c Hc HM).
    intros m' c' Hc' HM'.
    destruct a; try (rewrite <- (sapp_nil_r m'); apply MStarS;
                     [rewrite sapp_nil_l; exact (IHa Hr m' c' Hc' HM')
                     |constructor]).
    inversion HM'; subst.
    match goal with H : String _ "" = _ |- _ => apply single_snoc in H as [-> ->] end.
    constructor.
  - inversion HM. snoc_nil.
Qed.

Lemma search_drop_space (r : re) (s : string) (c : ascii) :
  rtrim r = true -> isspace c = true ->
  search r (s ++ String c "") = true -> search r s = true.
Proof.
  intros Hr Hc. rewrite !search_spec.
  intros (pre & m & post & E & HM).
  destruct (string_snoc_cases post) as [-> | (post' & d & ->)].
  - rewrite sapp_nil_r in E.
    destruct (string_snoc_cases m) as [-> | (m' & d & ->)].
    + exists s, "", "". rewrite sapp_nil_l, sapp_nil_r. auto.
    + rewrite <- sapp_assoc in E. apply snoc_inj in E as [-> <-].
      exists pre, m', "". rewrite sapp_nil_r. split; [reflexivity|].
      exact (rtrim_sound r Hr m' c Hc HM).
  - rewrite <- !sapp_assoc in E. apply snoc_inj in E as [-> <-].
    exists pre, m, post'. rewrite sapp_assoc. split; [reflexivity|].
    eapply Matches_drop_last; [exact HM|reflexivity].
Qed.

Lemma search_drop_spaces (r : re) (w : string) :
  rtrim r = true -> allspace w = true ->
  forall s, search r (s ++ w) = true -> search r s = true.
Proof.
  intros Hr. induction w as [|c w IH]; intros Hw s.
  - rewrite sapp_nil_r. auto.
  - cbn [allspace] in Hw. apply andb_true_iff in Hw as [Hc Hw].
    change (String c w) with (String c "" ++ w). rewrite <- sapp_assoc.
    intros H. apply IH in H; [|exact Hw].
    eapply search_drop_space; eassumption.
Qed.

(** Stripping a command does not hide a match of a pattern that starts
    with a visible character and gives trailing whitespace back. *)
Lemma search_strip (r : re) (s : string) :
  first_ok r = true -> rtrim r = true ->
  search r s = true -> search r (strip s) = true.
Proof.
  intros Hf Hr H. unfold strip.
  rewrite <- (search_lstrip r s Hf) in H.
  destruct (rstrip_split (lstrip s)) as (w & E & Hw).
  rewrite E in H. eapply search_drop_spaces; eassumption.
Qed.

Lemma star_space_allspace (r : re) (m rest : string) :
  Matches r m rest -> r = Star (Chr CSpace) -> allspace m = true.
Proof.
  induction 1; intros E; inversion E; subst; [reflexivity|].
  rewrite allspace_app, IHMatches2 by reflexivity.
  inversion H; subst. cbn [allspace cs_mem] in *.
  match goal with H : isspace _ = true |- _ => rewrite H end. reflexivity.
Qed.

Lemma allspace_star_space (m rest : string) :
  allspace m = true -> Matches (Star (Chr CSpace)) m rest.
Proof.
  induction m as [|c m IH]; [constructor|].
  cbn [allspace]. intros [Hc Hm]%andb_true_iff.
  change (String c m) with (String c "" ++ m).
  apply MStarS; [constructor; exact Hc | auto].
Qed.

Lemma at_eol_allspace (s : string) : at_eol s = true -> allspace s = true.
Proof.
  destruct s as [|c [|d s]]; cbn; try discriminate; [reflexivity|].
  intros ->%Ascii.eqb_eq. reflexivity.
Qed.

Lemma is_trailer_inv (r : re) :
  is_trailer r = true -> r = Seq (Star (Chr CSpace)) Eol.
Proof.
  destruct r as [| |a b| | |]; try discriminate.
  destruct a as [| | | |a|]; try discriminate.
  destruct a as [|cs| | | |]; try discriminate.
  destruct cs; try discriminate.
  destruct b; try discriminate. reflexivity.
Qed.

Lemma rext_sound (r : re) : rext r = true -> Extends r.
Proof.
  induction r as [| cs | a IHa b IHb | a IHa b IHb | a IHa |];
    intros Hr m post c Hc HM;
    match type of HM with
    | Matches ?r0 _ _ =>
        destruct (eol_free r0) eqn:Hf;
        [exists m, (post ++ String c ""); split;
         [reflexivity | exact (Matches_ctx _ _ _ HM Hf _)] |]
    end;
    try discriminate Hf;
    unfold rext in Hr; fold rext in Hr; rewrite Hf in Hr;
    try discriminate Hr.
  cbn [orb] in Hr. apply orb_true_iff in Hr as [Ht | [Hfa Hb]%andb_true_iff].
  - apply is_trailer_inv in Ht. inversion Ht; subst a b. clear Ht IHa IHb Hf.
    inversion HM as [| | a' b' m1 m2 rest H1 H2 | | | | |]; subst.
    inversion H2; subst.
    exists (m1 ++ post ++ String c ""), "".
    rewrite !sapp_nil_r. split; [reflexivity|].
    rewrite <- (sapp_nil_r (m1 ++ post ++ String c "")).
    apply MSeq; [|constructor; reflexivity].
    apply allspace_star_space.
    rewrite !allspace_app, (star_space_allspace _ _ _ H1 eq_refl),
      (at_eol_allspace post) by assumption.
    cbn [allspace]. rewrite Hc. reflexivity.
  - inversion HM as [| | a' b' m1 m2 rest H1 H2 | | | | |]; subst.
    destruct (IHb Hb m2 post c Hc H2) as (m2' & post' & E & H2').
    exists (m1 ++ m2'), post'. rewrite !sapp_assoc, E. split; [reflexivity|].
    apply MSeq; [|exact H2']. exact (Matches_ctx _ _ _ H1 Hfa _).
Qed.

Lemma search_add_spaces (r : re) (w : string) :
  rext r = true -> allspace w = true ->
  forall s, search r s = true -> search r (s ++ w) = true.
Proof.
  intros Hr. induction w as [|c w IH]; intros Hw s.
  - rewrite sapp_nil_r. auto.
  - cbn [allspace] in Hw. apply andb_true_iff in Hw as [Hc Hw].
    change (String c w) with (String c "" ++ w). rewrite <- sapp_assoc.
    intros H. apply IH; [exact Hw|]. revert H. rewrite !search_spec.
    intros (pre & m & post & -> & HM).
    destruct (rext_sound r Hr m post c Hc HM) as (m' & post' & E & HM').
    exists pre, m', post'. rewrite !sapp_assoc, E. auto.
Qed.

(** A match in the stripped command is a match in the command. *)
Lemma search_strip_back (r : re) (s : string) :
  rext r = true -> search r (strip s) = true -> search r s = true.
Proof.
  intros Hr H. unfold strip in H. apply search_lstrip_back.
  destruct (rstrip_split (lstrip s)) as (w & E & Hw).
  rewrite E. apply search_add_spaces; assumption.
Qed.

(* ===================================================================== *)
(** ** The risk classifier *)
(* ===================================================================== *)

Import Safety.

Lemma existsb_false_forall {A : Type} (f : A -> bool) (l : list A) :
  existsb f l = false <-> forall x, In x l -> f x = false.
Proof.
  induction l as [|a l IH]; cbn [existsb In].
  - split; [intros _ x []|reflexivity].
  - rewrite orb_false_iff, IH. split.
    + intros [Ha Hl] x [<-|Hx]; auto.
    + intros H. split; [|intros x Hx]; apply H; auto.
Qed.

Lemma critical_patterns_shape :
  forallb (fun p => first_ok p && rtrim p && negb (search p ""))
          CRITICAL_PATTERNS = true.
Proof. reflexivity. Qed.

Lemma all_patterns_extend :
  forallb rext (CRITICAL_PATTERNS ++ HIGH_RISK_PATTERNS) = true.
Proof. reflexivity. Qed.

(** A command with a critical match is still non-empty, and still has the
    match, after [strip]. *)
Lemma critical_survives_strip (pattern : re) (command : string) :
  In pattern CRITICAL_PATTERNS -> search pattern command = true ->
  strip command <> "" /\ search pattern (strip command) = true.
Proof.
  intros Hin Hs.
  pose proof critical_patterns_shape as Hshape.
  rewrite forallb_forall in Hshape. specialize (Hshape _ Hin).
  apply andb_true_iff in Hshape as [[Hf Hr]%andb_true_iff Hne].
  pose proof (search_strip pattern command Hf Hr Hs) as Hs'.
  split; [|exact Hs'].
  intros E. rewrite E in Hs'. rewrite Hs' in Hne. discriminate.
Qed.

(** C1.  A command in which some built-in critical pattern finds a match is
    classified unsafe, without confirmation, at risk level critical, for
    every safety level and whatever extension lists the classifier was
    built with; the command [rm -rf /] is such a command. *)
Theorem check_command_critical
  (blocked : option (list re)) (requires : option (list string))
  (level command : string) :
  (exists pattern, In pattern CRITICAL_PATTERNS
                   /\ search pattern command = true) ->
  check_command (init blocked requires level) command = blocked_verdict
  /\ check_command (init blocked requires level) "rm -rf /" = blocked_verdict.
Proof.
  intros (pattern & Hin & Hs). split; [|reflexivity].
  destruct (critical_survives_strip pattern command Hin Hs) as [Hne Hs'].
  unfold check_command. cbn [compiled_critical init].
  apply String.eqb_neq in Hne. rewrite Hne.
  assert (Hex : existsb (fun p => search p (strip command))
                        CRITICAL_PATTERNS = true).
  { apply existsb_exists. exists pattern. auto. }
  rewrite Hex. reflexivity.
Qed.

(** The critical rule at work on [rm -rf /] under the default safety level. *)
Lemma check_command_critical_witness :
  (exists pattern, In pattern CRITICAL_PATTERNS
                   /\ search pattern "rm -rf /" = true)
  /\ is_safe (check_command (init None None "medium") "rm -rf /") = false
  /\ risk_level (check_command (init None None "medium") "rm -rf /")
     = "critical".
Proof.
  assert (H : exists pattern, In pattern CRITICAL_PATTERNS
                              /\ search pattern "rm -rf /" = true).
  { eexists. split; [left; reflexivity | reflexivity]. }
  split; [exact H|].
  destruct (check_command_critical None None "medium" "rm -rf /" H) as [-> _].
  split; reflexivity.
Defined.

(** Two scenarios of the classifier under the default safety level. *)
Example check_command_scenarios :
  check_command (init None None "medium") "systemctl stop nginx"
  = mkSafetyResult true true "High risk operation detected" "high"
  /\ check_command (init None None "medium") "ls -la /var/log" = safe_verdict.
Proof. split; reflexivity. Qed.

(** The verdict never depends on the extension patterns given to the
    constructor: they are merged into [blocked_patterns], which
    [check_command] does not read. *)
Lemma check_command_blocked_irrelevant
  (blocked : option (list re)) (requires : option (list string))
  (level command : string) :
  check_command (init blocked requires level) command
  = check_command (init None requires level) command.
Proof. reflexivity. Qed.

(** C2.  The classifier built with the extension pattern [curl] keeps that
    pattern in its block list, the pattern matches the command
    [curl http://example.com], and yet the command is classified safe. *)
Theorem check_command_extension_not_blocked :
  let self := init (Some [lits "curl"]) None "low" in
  In (lits "curl") (blocked_patterns self)
  /\ search (lits "curl") "curl http://example.com" = true
  /\ check_command self "curl http://example.com"
     = mkSafetyResult true false "Command passed safety checks" "low".
Proof.
  cbv zeta. split; [|split; reflexivity].
  cbn [blocked_patterns init]. apply in_or_app. right. left. reflexivity.
Qed.

(** *** The safe allowlist *)

Lemma prefix_app (p s : string) :
  String.prefix p s = true <-> exists x, s = p ++ x.
Proof.
  revert s. induction p as [|c p IH]; intros s.
  - destruct s; cbn [String.prefix]; split; eauto.
  - destruct s as [|d s]; cbn [String.prefix].
    + split; [discriminate|]. intros (x & E). rewrite sapp_cons in E. discriminate.
    + destruct (ascii_dec c d) as [->|Hne].
      * rewrite IH. split; intros (x & E); exists x.
        -- rewrite sapp_cons, E. reflexivity.
        -- rewrite sapp_cons in E. inversion E. reflexivity.
      * split; [discriminate|]. intros (x & E). rewrite sapp_cons in E.
        inversion E. congruence.
Qed.

Lemma lstrip_length (s : string) :
  (String.length (lstrip s) <= String.length s)%nat.
Proof.
  induction s as [|c s IH]; cbn [lstrip]; [lia|].
  destruct (isspace c); cbn [String.length]; lia.
Qed.

Lemma lstrip_app_keep (p y : string) :
  p <> "" -> lstrip p = p -> lstrip (p ++ y) = p ++ y.
Proof.
  destruct p as [|c p]; [congruence|]. intros _.
  rewrite sapp_cons. cbn [lstrip]. destruct (isspace c); [|reflexivity].
  intros E. pose proof (lstrip_length p) as Hl. rewrite E in Hl.
  cbn [String.length] in Hl. lia.
Qed.

(** An allowlist entry has no whitespace at either end. *)
Lemma safe_commands_shape :
  Forall (fun p => p <> "" /\ lstrip p = p /\ rstrip p = p) SAFE_COMMANDS.
Proof. repeat constructor; discriminate. Qed.

Lemma strip_keeps_entry (p command : string) :
  p <> "" -> lstrip p = p -> rstrip p = p ->
  command = p \/ startswith command (p ++ " ") = true ->
  strip command <> ""
  /\ (strip command = p \/ startswith (strip command) (p ++ " ") = true).
Proof.
  intros Hne Hl Hr H.
  assert (Hgoal : strip command = p
                  \/ startswith (strip command) (p ++ " ") = true).
  { destruct H as [-> | (x & ->)%prefix_app].
    - left. unfold strip. rewrite Hl. exact Hr.
    - unfold strip. rewrite !sapp_assoc.
      rewrite (lstrip_app_keep p _ Hne Hl), (rstrip_app_keep p _ Hne Hr).
      rewrite sapp_cons, sapp_nil_l.
      destruct (rstrip_cons " " x) as [(-> & _) | ->].
      + left. apply sapp_nil_r.
      + right. apply prefix_app. exists (rstrip x).
        rewrite sapp_assoc. reflexivity. }
  split; [|exact Hgoal].
  destruct Hgoal as [-> | (x & ->)%prefix_app]; [exact Hne|].
  destruct p; [congruence | discriminate].
Qed.

Lemma is_safe_command_strip (command : string) :
  _is_safe_command command = true ->
  strip command <> "" /\ _is_safe_command (strip command) = true.
Proof.
  unfold _is_safe_command. rewrite !existsb_exists.
  intros (p & Hin & [E%String.eqb_eq | Hp]%orb_true_iff);
    pose proof safe_commands_shape as Hshape;
    rewrite List.Forall_forall in Hshape;
    destruct (Hshape p Hin) as (Hne & Hl & Hr);
    (destruct (strip_keeps_entry p command Hne Hl Hr) as [Hs Hk]; [auto|]);
    (split; [exact Hs|]); exists p; (split; [exact Hin|]);
    apply orb_true_iff; destruct Hk as [-> | Hk]; auto using String.eqb_refl.
Qed.

(** C3, as the code has it.  A command on the safe allowlist (an entry, or
    an entry followed by a space and anything) in which no critical and no
    high-risk pattern finds a match is allowed without confirmation at risk
    level low, for every safety level. *)
Theorem check_command_allowlisted
  (blocked : option (list re)) (requires : option (list string))
  (level command : string) :
  _is_safe_command command = true ->
  (forall pattern, In pattern (CRITICAL_PATTERNS ++ HIGH_RISK_PATTERNS) ->
                   search pattern command = false) ->
  check_command (init blocked requires level) command = safe_verdict.
Proof.
  intros Hsafe Hno.
  destruct (is_safe_command_strip command Hsafe) as [Hne Hsafe'].
  assert (Hno' : forall pattern,
             In pattern (CRITICAL_PATTERNS ++ HIGH_RISK_PATTERNS) ->
             search pattern (strip command) = false).
  { intros pattern Hin.
    pose proof all_patterns_extend as Hext. rewrite forallb_forall in Hext.
    destruct (search pattern (strip command)) eqn:Hs; [|reflexivity].
    apply (search_strip_back _ _ (Hext _ Hin)) in Hs.
    rewrite (Hno _ Hin) in Hs. discriminate. }
  unfold check_command. cbn [compiled_critical compiled_high_risk init].
  apply String.eqb_neq in Hne. rewrite Hne.
  assert (Hc : existsb (fun p => search p (strip command))
                       CRITICAL_PATTERNS = false).
  { apply existsb_false_forall. intros p Hp. apply Hno', in_or_app. auto. }
  assert (Hh : existsb (fun p => search p (strip command))
                       HIGH_RISK_PATTERNS = false).
  { apply existsb_false_forall. intros p Hp. apply Hno', in_or_app. auto. }
  rewrite Hc, Hh, Hsafe'. reflexivity.
Qed.

(** The allowlist rule at work on [ls -la /var/log] under the strictest
    safety level. *)
Lemma check_command_allowlisted_witness :
  _is_safe_command "ls -la /var/log" = true
  /\ (forall pattern, In pattern (CRITICAL_PATTERNS ++ HIGH_RISK_PATTERNS) ->
                      search pattern "ls -la /var/log" = false)
  /\ check_command (init None None "high") "ls -la /var/log" = safe_verdict.
Proof.
  assert (H1 : _is_safe_command "ls -la /var/log" = true) by reflexivity.
  assert (H2 : forall pattern,
             In pattern (CRITICAL_PATTERNS ++ HIGH_RISK_PATTERNS) ->
             search pattern "ls -la /var/log" = false).
  { apply existsb_false_forall. reflexivity. }
  split; [exact H1|]. split; [exact H2|].
  exact (check_command_allowlisted None None "high" "ls -la /var/log" H1 H2).
Defined.

(** C3 as stated fails: [echo reboot] begins with the allowlisted prefix
    [echo] and a space, and is sent to confirmation at every safety level,
    because the high-risk pattern [reboot] is tried before the allowlist. *)
Lemma check_command_allowlisted_counterexample :
  _is_safe_command "echo reboot" = true
  /\ requires_confirmation
       (check_command (init None None "low") "echo reboot") = true
  /\ risk_level (check_command (init None None "low") "echo reboot") = "high".
Proof. repeat split. Qed.

(** *** [sanitize_command] and [check_file_operation] *)

Lemma sanitize_step_appends (st : SanitizeState) (char : ascii) :
  sanitized (sanitize_step st char) = (sanitized st ++ [char])%list.
Proof.
  unfold sanitize_step.
  destruct (is_quote char); [|reflexivity].
  destruct (in_quotes st); cbn [negb]; [|reflexivity].
  destruct (quote_char st) as [q|]; [|reflexivity].
  destruct (Ascii.eqb char q); reflexivity.
Qed.

Lemma sanitize_loop_appends (chars : list ascii) : forall st,
  sanitized (fold_left sanitize_step chars st) = (sanitized st ++ chars)%list.
Proof.
  induction chars as [|c chars IH]; intros st; cbn [fold_left].
  - rewrite app_nil_r. reflexivity.
  - rewrite IH, sanitize_step_appends, <- app_assoc. reflexivity.
Qed.

(** C9.  [sanitize_command] returns its argument unchanged: the loop tracks
    the quoting state and appends every character it reads. *)
Theorem sanitize_command_identity (command : string) :
  sanitize_command command = command.
Proof.
  unfold sanitize_command. rewrite sanitize_loop_appends.
  cbn [sanitized app]. apply string_of_list_ascii_of_string.
Qed.

(** C10.  A [read] is never blocked and never needs confirmation, whatever
    the path; the same path may be blocked for a [write]. *)
Theorem check_file_operation_read (path : string) :
  check_file_operation path "read"
  = mkSafetyResult true false "File operation is safe" "low"
  /\ is_safe (check_file_operation "/etc/shadow" "read") = true
  /\ is_safe (check_file_operation "/etc/shadow" "write") = false.
Proof. repeat split. Qed.

(* ===================================================================== *)
(** ** The execution engine *)
(* ===================================================================== *)

Import Executor.

Lemma ticks_clock (n : nat) : forall w cmd,
  clock (ticks w cmd n) = (clock w + n)%nat.
Proof.
  induction n as [|n IH]; intros w cmd; cbn [ticks]; [lia|].
  rewrite IH. cbn [clock tick]. lia.
Qed.

Lemma ticks_trace (n : nat) : forall w cmd,
  trace (ticks w cmd n) = (trace w ++ repeat cmd n)%list.
Proof.
  induction n as [|n IH]; intros w cmd; cbn [ticks repeat].
  - rewrite app_nil_r. reflexivity.
  - rewrite IH. cbn [trace tick]. rewrite <- app_assoc. reflexivity.
Qed.

Lemma ticks_oracles (n : nat) : forall w cmd,
  run_local (ticks w cmd n) = run_local w
  /\ run_remote (ticks w cmd n) = run_remote w.
Proof.
  induction n as [|n IH]; intros w cmd; cbn [ticks]; [auto|].
  destruct (IH (tick w cmd) cmd) as [-> ->]. auto.
Qed.

Lemma ticks_snoc (n : nat) : forall w cmd,
  tick (ticks w cmd n) cmd = ticks w cmd (S n).
Proof.
  induction n as [|n IH]; intros w cmd; [reflexivity|].
  cbn [ticks] in *. apply IH.
Qed.

(** Arithmetic goals in which the loop bound is an unknown. *)
Ltac bound_lia :=
  first [ let b := fresh "b" in
          set (b := retry_bound _ _) in *; clearbody b; lia
        | lia ].

Section Loops.
Variable self : Executor.
Variable command : string.
Variable retry_on_failure : bool.

Local Abbreviation bound := (retry_bound self retry_on_failure).

(** *** The local loop *)

Lemma local_loop_total (fuel : nat) : forall retries w,
  (Z.to_nat (bound + 1 - retries) < fuel)%nat ->
  exists r w', local_loop self command retry_on_failure fuel retries w
               = Some (r, w').
Proof.
  induction fuel as [|fuel IH]; intros retries w Hf; [bound_lia|].
  cbn [local_loop].
  destruct (retries <=? bound)%Z eqn:Hle; [|eauto].
  apply Z.leb_le in Hle.
  destruct (run_local w command (clock w)) as [rc out err| |e]; eauto.
  destruct (rc =? 0)%Z; [eauto|].
  destruct (retry_on_failure && (retries <? max_retries self)%Z); [|eauto].
  apply IH. bound_lia.
Qed.

(** What every result of the local loop satisfies. *)
Lemma local_loop_props (fuel : nat) : forall retries w r w',
  local_loop self command retry_on_failure fuel retries w = Some (r, w') ->
  Executor.command r = command
  /\ (retries <= Executor.retries r <= Z.max retries bound)%Z
  /\ exists n, w' = ticks w command n
               /\ (success r = true ->
                   Z.of_nat n = (Executor.retries r - retries + 1)%Z).
Proof.
  induction fuel as [|fuel IH]; intros retries w r w'; [discriminate|].
  cbn [local_loop].
  destruct (retries <=? bound)%Z eqn:Hle.
  - apply Z.leb_le in Hle.
    destruct (run_local w command (clock w)) as [rc out err| |e].
    + destruct (rc =? 0)%Z.
      * intros [= <- <-]. cbn. repeat split; try bound_lia.
        exists 1%nat. split; [reflexivity|]. lia.
      * destruct (retry_on_failure && (retries <? max_retries self)%Z) eqn:Hre.
        -- intros H. apply IH in H as (Hc & Hr & n & -> & Hs).
           assert (Hlt : (retries + 1 <= bound)%Z).
           { apply andb_true_iff in Hre as [Hrt Hlt%Z.ltb_lt].
             unfold retry_bound. rewrite Hrt. lia. }
           split; [exact Hc|]. split; [bound_lia|].
           exists (S n). split; [reflexivity|]. intros Hsucc.
           specialize (Hs Hsucc). lia.
        -- intros [= <- <-]. cbn. repeat split; try bound_lia.
           exists 1%nat. split; [reflexivity|discriminate].
    + intros [= <- <-]. cbn. repeat split; try bound_lia.
      exists 1%nat. split; [reflexivity|discriminate].
    + intros [= <- <-]. cbn. repeat split; try bound_lia.
      exists 1%nat. split; [reflexivity|discriminate].
  - intros [= <- <-]. cbn. repeat split; try bound_lia.
    exists 0%nat. split; [reflexivity|discriminate].
Qed.

(** [k] attempts that exit with a nonzero status while the budget lasts
    are each followed by a retry. *)
Lemma local_loop_skip (k : nat) : forall fuel retries w,
  (0 <= retries)%Z -> (retries + Z.of_nat k <= bound)%Z ->
  (forall i, (i < k)%nat ->
     failed_exit (local_exit (run_local w command (clock w + i))) = true) ->
  local_loop self command retry_on_failure (k + fuel) retries w
  = local_loop self command retry_on_failure fuel
               (retries + Z.of_nat k) (ticks w command k).
Proof.
  induction k as [|k IH]; intros fuel retries w H0 Hb Hfail.
  - cbn [Nat.add ticks]. rewrite Z.add_0_r. reflexivity.
  - cbn [Nat.add local_loop ticks].
    destruct (Z.leb_spec retries bound) as [_|]; [|bound_lia].
    pose proof (Hfail 0%nat ltac:(lia)) as Hfirst.
    rewrite Nat.add_0_r in Hfirst.
    destruct (run_local w command (clock w)) as [rc out err| |e];
      cbn [local_exit failed_exit] in Hfirst; try discriminate.
    apply negb_true_iff in Hfirst. rewrite Hfirst.
    assert (Hre : retry_on_failure && (retries <? max_retries self)%Z = true).
    { unfold retry_bound in Hb. destruct retry_on_failure; [|bound_lia].
      apply Z.ltb_lt. lia. }
    rewrite Hre, IH; [f_equal; lia|lia|bound_lia|].
    intros i Hi. cbn [tick clock run_local].
    replace (S (clock w) + i)%nat with (clock w + S i)%nat by lia.
    apply Hfail. lia.
Qed.

Lemma loop_fuel_split (k : nat) :
  (Z.of_nat k <= bound)%Z ->
  exists fuel, loop_fuel self retry_on_failure = (k + S fuel)%nat.
Proof.
  intros Hk. exists (Z.to_nat (bound + 1) - k)%nat.
  unfold loop_fuel. bound_lia.
Qed.

(** The run of [_execute_local] up to attempt number [k], when the
    attempts before it exit with a nonzero status. *)
Lemma execute_local_skip (k : nat) (w : World) :
  (Z.of_nat k <= bound)%Z ->
  (forall i, (i < k)%nat ->
     failed_exit (local_exit (run_local w command (clock w + i))) = true) ->
  exists fuel,
    _execute_local self command retry_on_failure w
    = local_loop self command retry_on_failure (S fuel)
                 (Z.of_nat k) (ticks w command k).
Proof.
  intros Hk Hfail. destruct (loop_fuel_split k Hk) as (fuel & E).
  exists fuel. unfold _execute_local. rewrite E.
  rewrite local_loop_skip; [reflexivity|lia|bound_lia|exact Hfail].
Qed.

End Loops.

Section RemoteLoops.
Variable self : Executor.
Variable command : string.
Variable ssh_config : SshConfig.
Variable retry_on_failure : bool.

Local Abbreviation bound := (retry_bound self retry_on_failure).

(** *** The remote loop *)

Lemma remote_loop_total (fuel : nat) : forall retries w,
  (Z.to_nat (bound + 1 - retries) < fuel)%nat ->
  exists r w', remote_loop self command ssh_config retry_on_failure
                           fuel retries w = Some (r, w').
Proof.
  induction fuel as [|fuel IH]; intros retries w Hf; [bound_lia|].
  cbn [remote_loop].
  destruct (retries <=? bound)%Z eqn:Hle; [|eauto].
  apply Z.leb_le in Hle.
  destruct (run_remote w ssh_config command (clock w)) as [rc out err|e|e];
    eauto.
  destruct (rc =? 0)%Z; [eauto|].
  destruct (retry_on_failure && (retries <? max_retries self)%Z); [|eauto].
  apply IH. bound_lia.
Qed.

Lemma remote_loop_props (fuel : nat) : forall retries w r w',
  remote_loop self command ssh_config retry_on_failure fuel retries w
  = Some (r, w') ->
  Executor.command r = command
  /\ (retries <= Executor.retries r <= Z.max retries bound)%Z
  /\ exists n, w' = ticks w command n
               /\ (success r = true ->
                   Z.of_nat n = (Executor.retries r - retries + 1)%Z).
Proof.
  induction fuel as [|fuel IH]; intros retries w r w'; [discriminate|].
  cbn [remote_loop].
  destruct (retries <=? bound)%Z eqn:Hle.
  - apply Z.leb_le in Hle.
    destruct (run_remote w ssh_config command (clock w)) as [rc out err|e|e].
    + destruct (rc =? 0)%Z.
      * intros [= <- <-]. cbn. repeat split; try bound_lia.
        exists 1%nat. split; [reflexivity|]. lia.
      * destruct (retry_on_failure && (retries <? max_retries self)%Z) eqn:Hre.
        -- intros H. apply IH in H as (Hc & Hr & n & -> & Hs).
           assert (Hlt : (retries + 1 <= bound)%Z).
           { apply andb_true_iff in Hre as [Hrt Hlt%Z.ltb_lt].
             unfold retry_bound. rewrite Hrt. lia. }
           split; [exact Hc|]. split; [bound_lia|].
           exists (S n). split; [reflexivity|]. intros Hsucc.
           specialize (Hs Hsucc). lia.
        -- intros [= <- <-]. cbn. repeat split; try bound_lia.
           exists 1%nat. split; [reflexivity|discriminate].
    + intros [= <- <-]. cbn. repeat split; try bound_lia.
      exists 1%nat. split; [reflexivity|discriminate].
    + intros [= <- <-]. cbn. repeat split; try bound_lia.
      exists 1%nat. split; [reflexivity|discriminate].
  - intros [= <- <-]. cbn. repeat split; try bound_lia.
    exists 0%nat. split; [reflexivity|discriminate].
Qed.

Lemma remote_loop_skip (k : nat) : forall fuel retries w,
  (0 <= retries)%Z -> (retries + Z.of_nat k <= bound)%Z ->
  (forall i, (i < k)%nat ->
     failed_exit
       (remote_exit (run_remote w ssh_config command (clock w + i))) = true) ->
  remote_loop self command ssh_config retry_on_failure (k + fuel) retries w
  = remote_loop self command ssh_config retry_on_failure fuel
                (retries + Z.of_nat k) (ticks w command k).
Proof.
  induction k as [|k IH]; intros fuel retries w H0 Hb Hfail.
  - cbn [Nat.add ticks]. rewrite Z.add_0_r. reflexivity.
  - cbn [Nat.add remote_loop ticks].
    destruct (Z.leb_spec retries bound) as [_|]; [|bound_lia].
    pose proof (Hfail 0%nat ltac:(lia)) as Hfirst.
    rewrite Nat.add_0_r in Hfirst.
    destruct (run_remote w ssh_config command (clock w)) as [rc out err|e|e];
      cbn [remote_exit failed_exit] in Hfirst; try discriminate.
    apply negb_true_iff in Hfirst. rewrite Hfirst.
    assert (Hre : retry_on_failure && (retries <? max_retries self)%Z = true).
    { unfold retry_bound in Hb. destruct retry_on_failure eqn:Hrt; [|lia].
      apply Z.ltb_lt. lia. }
    rewrite Hre, IH; [f_equal; lia|lia|bound_lia|].
    intros i Hi. cbn [tick clock run_remote].
    replace (S (clock w) + i)%nat with (clock w + S i)%nat by lia.
    apply Hfail. lia.
Qed.

Lemma execute_remote_skip (k : nat) (w : World) :
  (Z.of_nat k <= bound)%Z ->
  (forall i, (i < k)%nat ->
     failed_exit
       (remote_exit (run_remote w ssh_config command (clock w + i))) = true) ->
  exists fuel,
    _execute_remote self command ssh_config retry_on_failure w
    = remote_loop self command ssh_config retry_on_failure (S fuel)
                  (Z.of_nat k) (ticks w command k).
Proof.
  intros Hk Hfail.
  destruct (loop_fuel_split self retry_on_failure k Hk) as (fuel & E).
  exists fuel. unfold _execute_remote. rewrite E.
  rewrite remote_loop_skip; [reflexivity|lia|bound_lia|exact Hfail].
Qed.

End RemoteLoops.

(** The state of the oracles and the clock after [k] attempts. *)
Lemma ticks_run_local (w : World) (cmd c : string) (k n : nat) :
  run_local (ticks w cmd k) c n = run_local w c n.
Proof. destruct (ticks_oracles k w cmd) as [-> _]. reflexivity. Qed.

Lemma ticks_run_remote (w : World) (cmd c : string) (cfg : SshConfig)
      (k n : nat) :
  run_remote (ticks w cmd k) cfg c n = run_remote w cfg c n.
Proof. destruct (ticks_oracles k w cmd) as [_ ->]. reflexivity. Qed.



(** C4, as the code has it.  In a remote execution an SSH (connection or
    authentication) error, or any other exception, on an attempt ends the
    execution at once, after any number [k] of retried nonzero exits: the
    failure is returned with [retries = k] and the text of the exception,
    and no attempt follows. *)
Theorem execute_remote_exception_terminal
  (self : Executor) (command : string) (ssh_config : SshConfig)
  (retry_on_failure : bool) (w : World) (k : nat) (e : string) :
  (Z.of_nat k <= retry_bound self retry_on_failure)%Z ->
  (forall i, (i < k)%nat ->
     failed_exit
       (remote_exit (run_remote w ssh_config command (clock w + i))) = true) ->
  (run_remote w ssh_config command (clock w + k) = RSSHException e ->
   _execute_remote self command ssh_config retry_on_failure w
   = Some (mkResult false command "" e (-1) (Z.of_nat k) ("SSH error: " ++ e),
           ticks w command (S k)))
  /\ (run_remote w ssh_config command (clock w + k) = RRaised e ->
      _execute_remote self command ssh_config retry_on_failure w
      = Some (mkResult false command "" e (-1) (Z.of_nat k)
                ("Execution error: " ++ e),
              ticks w command (S k))).
Proof.
  intros Hk Hfail.
  destruct (execute_remote_skip self command ssh_config retry_on_failure
              k w Hk Hfail) as (fuel & ->).
  cbn [remote_loop].
  destruct (Z.leb_spec (Z.of_nat k) (retry_bound self retry_on_failure));
    [|lia].
  rewrite ticks_run_remote, ticks_clock, ticks_snoc.
  split; intros ->; reflexivity.
Qed.

(** An authentication error on the first remote attempt, with all three
    retries left. *)
Lemma execute_remote_exception_terminal_witness :
  (Z.of_nat 0 <= retry_bound default_executor true)%Z
  /\ run_remote ssh_down_world sample_ssh "uptime" (clock ssh_down_world + 0)
     = RSSHException "Authentication failed."
  /\ _execute_remote default_executor "uptime" sample_ssh true ssh_down_world
     = Some (mkResult false "uptime" "" "Authentication failed." (-1) 0
               "SSH error: Authentication failed.",
             ticks ssh_down_world "uptime" 1).
Proof.
  assert (H1 : (Z.of_nat 0 <= retry_bound default_executor true)%Z)
    by (vm_compute; discriminate).
  assert (H2 : forall i, (i < 0)%nat ->
             failed_exit (remote_exit
               (run_remote ssh_down_world sample_ssh "uptime"
                           (clock ssh_down_world + i))) = true)
    by (intros i Hi; lia).
  assert (H3 : run_remote ssh_down_world sample_ssh "uptime"
                          (clock ssh_down_world + 0)
               = RSSHException "Authentication failed.") by reflexivity.
  split; [exact H1|]. split; [exact H3|].
  exact (proj1 (execute_remote_exception_terminal default_executor "uptime"
                  sample_ssh true ssh_down_world 0 "Authentication failed."
                  H1 H2) H3).
Defined.

(** C4 as stated fails: with the default budget of three retries and none
    used, an authentication error on the first attempt is returned at once;
    the execution makes one attempt, not two. *)
Lemma execute_remote_retry_counterexample :
  exists r w',
    execute default_executor "uptime" (Some "vps1") (Some sample_ssh)
            true None ssh_down_world = Some (r, w')
    /\ success r = false
    /\ error_message r = "SSH error: Authentication failed."
    /\ (retries r < max_retries default_executor)%Z
    /\ clock w' = 1%nat
    /\ trace w' = ["uptime"].
Proof. do 2 eexists. split; [reflexivity|]. repeat split. Qed.

(** *** [execute] on either target *)

Lemma execute_local_eq
  (self : Executor) (command : string) (vps : option string)
  (ssh_config : option SshConfig) (retry_on_failure : bool)
  (use_cline_arg : option bool) (w : World) :
  (if opt_truthy vps then ssh_config else None) = None ->
  execute self command vps ssh_config retry_on_failure use_cline_arg w
  = _execute_local self command retry_on_failure w.
Proof.
  intros E. unfold execute. rewrite E. unfold _execute_with_cline.
  destruct (_ && _); reflexivity.
Qed.

Lemma execute_remote_eq
  (self : Executor) (command : string) (vps : option string)
  (ssh_config : option SshConfig) (retry_on_failure : bool)
  (use_cline_arg : option bool) (w : World) (cfg : SshConfig) :
  (if opt_truthy vps then ssh_config else None) = Some cfg ->
  execute self command vps ssh_config retry_on_failure use_cline_arg w
  = _execute_remote self command cfg retry_on_failure w.
Proof. intros E. unfold execute. rewrite E. reflexivity. Qed.

Lemma loop_fuel_enough (self : Executor) (retry_on_failure : bool) :
  (Z.to_nat (retry_bound self retry_on_failure + 1 - 0)
   < loop_fuel self retry_on_failure)%nat.
Proof. unfold loop_fuel. bound_lia. Qed.

(** [execute] always returns; its result is about the command it was given
    and the world has only seen attempts of that command. *)
Lemma execute_total
  (self : Executor) (command : string) (vps : option string)
  (ssh_config : option SshConfig) (retry_on_failure : bool)
  (use_cline_arg : option bool) (w : World) :
  exists r w' n,
    execute self command vps ssh_config retry_on_failure use_cline_arg w
    = Some (r, w')
    /\ Executor.command r = command
    /\ w' = ticks w command n
    /\ (0 <= retries r <= Z.max 0 (retry_bound self retry_on_failure))%Z
    /\ (success r = true -> Z.of_nat n = (retries r + 1)%Z).
Proof.
  destruct (if opt_truthy vps then ssh_config else None) as [cfg|] eqn:E.
  - rewrite (execute_remote_eq _ _ _ _ _ _ _ cfg E). unfold _execute_remote.
    destruct (remote_loop_total self command cfg retry_on_failure _ 0%Z w
                (loop_fuel_enough self retry_on_failure)) as (r & w' & Hr).
    rewrite Hr. apply remote_loop_props in Hr as (Hc & Hb & n & Hw & Hs).
    exists r, w', n. repeat split; try tauto; try lia.
    intros H. specialize (Hs H). lia.
  - rewrite (execute_local_eq _ _ _ _ _ _ _ E). unfold _execute_local.
    destruct (local_loop_total self command retry_on_failure _ 0%Z w
                (loop_fuel_enough self retry_on_failure)) as (r & w' & Hr).
    rewrite Hr. apply local_loop_props in Hr as (Hc & Hb & n & Hw & Hs).
    exists r, w', n. repeat split; try tauto; try lia.
    intros H. specialize (Hs H). lia.
Qed.

(** A success on attempt number [k], counted from 0, after [k] nonzero
    exits within the budget. *)
Lemma execute_succeeds_after
  (self : Executor) (command : string) (vps : option string)
  (ssh_config : option SshConfig) (retry_on_failure : bool)
  (use_cline_arg : option bool) (w : World) (k : nat) :
  (Z.of_nat k <= retry_bound self retry_on_failure)%Z ->
  (forall i, (i < k)%nat ->
     failed_exit (attempt_exit w vps ssh_config command (clock w + i)) = true) ->
  attempt_exit w vps ssh_config command (clock w + k) = Some 0%Z ->
  exists r,
    execute self command vps ssh_config retry_on_failure use_cline_arg w
    = Some (r, ticks w command (S k))
    /\ success r = true /\ retries r = Z.of_nat k.
Proof.
  unfold attempt_exit. intros Hk Hfail Hlast.
  destruct (if opt_truthy vps then ssh_config else None) as [cfg|] eqn:E.
  - rewrite (execute_remote_eq _ _ _ _ _ _ _ cfg E).
    destruct (execute_remote_skip self command cfg retry_on_failure
                k w Hk Hfail) as (fuel & ->).
    cbn [remote_loop].
    destruct (Z.leb_spec (Z.of_nat k) (retry_bound self retry_on_failure));
      [|lia].
    rewrite ticks_run_remote, ticks_clock, ticks_snoc.
    destruct (run_remote w cfg command (clock w + k)) as [rc out err|e|e];
      try discriminate.
    injection Hlast as ->. eexists. split; [reflexivity|]. split; reflexivity.
  - rewrite (execute_local_eq _ _ _ _ _ _ _ E).
    destruct (execute_local_skip self command retry_on_failure
                k w Hk Hfail) as (fuel & ->).
    cbn [local_loop].
    destruct (Z.leb_spec (Z.of_nat k) (retry_bound self retry_on_failure));
      [|lia].
    rewrite ticks_run_local, ticks_clock, ticks_snoc.
    destruct (run_local w command (clock w + k)) as [rc out err| |e];
      try discriminate.
    injection Hlast as ->. eexists. split; [reflexivity|]. split; reflexivity.
Qed.

(** C5, as the code has it.  With a retry budget that is not negative,
    every execution, local or remote, returns a result with
    [0 <= retries <= max_retries]; a successful execution that made [n]
    attempts reports [retries = n - 1]; and when the attempts number
    [0 .. k-1] exit with a nonzero status within the budget and attempt
    number [k] exits with status 0, the result is a success with
    [retries = k]. *)
Theorem execute_retries_bounded
  (self : Executor) (command : string) (vps : option string)
  (ssh_config : option SshConfig) (retry_on_failure : bool)
  (use_cline_arg : option bool) (w : World) :
  (0 <= max_retries self)%Z ->
  exists r w' n,
    execute self command vps ssh_config retry_on_failure use_cline_arg w
    = Some (r, w')
    /\ w' = ticks w command n
    /\ (0 <= retries r <= max_retries self)%Z
    /\ (success r = true -> Z.of_nat n = (retries r + 1)%Z)
    /\ (forall k,
          (Z.of_nat k <= retry_bound self retry_on_failure)%Z ->
          (forall i, (i < k)%nat ->
             failed_exit (attempt_exit w vps ssh_config command (clock w + i))
             = true) ->
          attempt_exit w vps ssh_config command (clock w + k) = Some 0%Z ->
          success r = true /\ retries r = Z.of_nat k).
Proof.
  intros Hmax.
  destruct (execute_total self command vps ssh_config retry_on_failure
              use_cline_arg w) as (r & w' & n & E & _ & Hw & Hb & Hs).
  exists r, w', n. split; [exact E|]. split; [exact Hw|].
  split; [unfold retry_bound in Hb; destruct retry_on_failure; lia|].
  split; [exact Hs|].
  intros k Hk Hfail Hlast.
  destruct (execute_succeeds_after self command vps ssh_config
              retry_on_failure use_cline_arg w k Hk Hfail Hlast)
    as (r' & E' & Hsucc & Hret).
  rewrite E in E'. injection E' as -> _. auto.
Qed.

(** Two busy attempts followed by a success, under the default budget. *)
Lemma execute_retries_bounded_witness :
  (0 <= max_retries default_executor)%Z
  /\ exists r w',
       execute default_executor "apt update" None None true None flaky_world
       = Some (r, w')
       /\ (0 <= retries r <= max_retries default_executor)%Z
       /\ success r = true /\ retries r = 2%Z.
Proof.
  assert (H0 : (0 <= max_retries default_executor)%Z)
    by (vm_compute; discriminate).
  split; [exact H0|].
  destruct (execute_retries_bounded default_executor "apt update" None None
              true None flaky_world H0)
    as (r & w' & n & E & _ & Hb & _ & Hk).
  exists r, w'. split; [exact E|]. split; [exact Hb|].
  apply (Hk 2%nat).
  - vm_compute. discriminate.
  - intros [|[|i]] Hi; [reflexivity|reflexivity|lia].
  - reflexivity.
Defined.

(** C5 as stated fails for a negative budget: the loop body never runs and
    the fall-through result carries [retries = 0], which exceeds
    [max_retries = -1]. *)
Lemma execute_retries_counterexample :
  exists r w',
    execute negative_executor "uptime" None None true None calm_world
    = Some (r, w')
    /\ retries r = 0%Z
    /\ max_retries negative_executor = (-1)%Z
    /\ ~ (retries r <= max_retries negative_executor)%Z.
Proof.
  do 2 eexists. split; [reflexivity|]. repeat split. vm_compute. auto.
Qed.

(** *** Batches *)

Local Close Scope string_scope.



Lemma batch_loop_spec
  (self : Executor) (vps : option string) (ssh_config : option SshConfig)
  (commands : list string) : forall acc w,
  exists new w' counts,
    batch_loop self commands vps ssh_config true acc w = Some (acc ++ new, w')
    /\ map Executor.command new = take (length new) commands
    /\ length counts = length new
    /\ trace w' = trace w ++ attempts commands counts
    /\ clock w' = (clock w + length (attempts commands counts))%nat
    /\ (Forall (fun r => success r = true) new
        /\ length new = length commands
        \/ exists oks r, new = oks ++ [r]
                         /\ Forall (fun r => success r = true) oks
                         /\ success r = false).
Proof.
  induction commands as [|c rest IH]; intros acc w; cbn [batch_loop].
  - exists [], w, []. rewrite !app_nil_r. cbn. rewrite Nat.add_0_r.
    repeat split. left. split; [constructor|reflexivity].
  - destruct (execute_total self c vps ssh_config true None w)
      as (r & w1 & n & -> & Hc & -> & _ & _).
    destruct (success r) eqn:Hs; cbn [negb andb].
    + destruct (IH (acc ++ [r]) (ticks w c n))
        as (new & w' & counts & -> & Hmap & Hlen & Htr & Hclk & Hshape).
      exists (r :: new), w', (n :: counts).
      rewrite <- app_assoc. split; [reflexivity|].
      split; [cbn; rewrite Hc, Hmap; reflexivity|].
      split; [cbn; rewrite Hlen; reflexivity|].
      split; [rewrite Htr, ticks_trace, <- app_assoc; reflexivity|].
      split.
      { rewrite Hclk, ticks_clock. unfold attempts. cbn [zip_with concat].
        rewrite length_app, repeat_length. lia. }
      destruct Hshape as [[Hall Hl] | (oks & r' & -> & Hoks & Hr')].
      * left. split; [constructor; assumption | cbn; rewrite Hl; reflexivity].
      * right. exists (r :: oks), r'. split; [reflexivity|].
        split; [constructor; assumption | exact Hr'].
    + exists [r], (ticks w c n), [n].
      split; [reflexivity|]. split; [cbn; rewrite Hc; reflexivity|].
      split; [reflexivity|].
      unfold attempts. cbn [zip_with concat].
      rewrite zip_with_nil_r. cbn [concat]. rewrite app_nil_r.
      split; [apply ticks_trace|].
      split; [rewrite ticks_clock, repeat_length; reflexivity|].
      right. exists [], r. split; [reflexivity|]. split; [constructor|exact Hs].
Qed.


Local Open Scope string_scope.

Example execute_batch_example :
  exists results w',
    execute_batch default_executor ["true"; "false"; "echo never"]
                  None None true picky_world = Some (results, w')
    /\ map Executor.command results = ["true"; "false"]
    /\ map success results = [true; false]
    /\ map retries results = [0; 3]%Z
    /\ trace w' = ["true"; "false"; "false"; "false"; "false"].
Proof. do 2 eexists. split; [reflexivity|]. repeat split. Qed.

(* ===================================================================== *)
(** ** Confirmation handling *)
(* ===================================================================== *)

Import Bot.

Lemma mem_true (x : string) (xs : list string) : mem x xs = true <-> In x xs.
Proof.
  unfold mem. rewrite existsb_exists. split.
  - intros (y & Hy & ->%String.eqb_eq). exact Hy.
  - intros H. exists x. split; [exact H|apply String.eqb_refl].
Qed.

(** No answer is both a yes and a no. *)
Lemma affirmative_not_negative (answer : string) :
  mem answer AFFIRMATIVE = true -> mem answer NEGATIVE = false.
Proof.
  rewrite mem_true. cbn [AFFIRMATIVE In].
  intros [<-|[<-|[<-|[<-|[]]]]]; reflexivity.
Qed.

(** The loop of [_execute_commands] always ends, and leaves the pending
    store as it found it or with one fresh entry for the user, holding a
    single suggested command. *)
Lemma execute_loop_pending
  (user_id : string) (all_commands : list string)
  (ai_context : gmap string string) (vps : option string)
  (ssh_config : option SshConfig) (todo : list string) :
  forall (self : ClideBot) (i : nat) (results : list ExecutionResult),
  exists bot',
    execute_loop self user_id all_commands ai_context vps ssh_config
                 i todo results = inr bot'
    /\ (pending_confirmations bot' = pending_confirmations self
        \/ exists f,
             truthy f = true
             /\ pending_confirmations bot'
                = <[user_id := mkPending [f] ai_context (now self)]>
                    (pending_confirmations self)).
Proof.
  induction todo as [|cmd rest IH]; intros self i results; cbn [execute_loop].
  - eexists. split; [reflexivity|]. left. reflexivity.
  - cbn [executor world emit].
    destruct (execute_total (executor self) cmd vps ssh_config true None
                (world self)) as (r & w' & n & -> & _).
    destruct (success r); cbn [negb].
    + destruct (IH (emit (set_world (emit self [LogCommand cmd user_id vps]) w')
                         [LogResult cmd r; AddCommand user_id cmd vps r])
                   (S i) (results ++ [r])%list) as (bot' & -> & Hp).
      exists bot'. split; [reflexivity|exact Hp].
    + eexists. split; [reflexivity|]. cbn [suggest_fix emit set_world].
      destruct (suggest_fix self cmd _) as [f|]; [|left; reflexivity].
      destruct (truthy f) eqn:Hf; [|left; reflexivity].
      right. exists f. split; [exact Hf|reflexivity].
Qed.

(** C8.  The pending store maps a user to at most one entry.  While a user
    has an entry: an affirmative answer pops it before anything else and
    runs its commands, after which the user has no entry unless a failed
    command led to a suggested fix, stored as a new one-command entry; a
    negative answer pops it and reports the cancellation; any other answer
    changes nothing and sends the re-prompt. *)
Theorem handle_confirmation_pending
  (self : ClideBot) (user_id response : string) (pending : Pending) :
  pending_confirmations self !! user_id = Some pending ->
  let answer := strip (lower response) in
  let popped := set_pending self (delete user_id (pending_confirmations self)) in
  pending_confirmations popped !! user_id = None
  /\ (mem answer AFFIRMATIVE = true ->
      _handle_confirmation self user_id response
      = _execute_commands (emit popped [Send MExecuting]) user_id
                          (commands pending) (context pending)
      /\ exists bot',
           _handle_confirmation self user_id response = inr bot'
           /\ (pending_confirmations bot' !! user_id = None
               \/ exists f,
                    pending_confirmations bot' !! user_id
                    = Some (mkPending [f] (context pending) (now self))))
  /\ (mem answer NEGATIVE = true ->
      _handle_confirmation self user_id response
      = inr (emit popped [AddConversation user_id "assistant" MCancelled;
                          Send MCancelled]))
  /\ (mem answer AFFIRMATIVE = false -> mem answer NEGATIVE = false ->
      _handle_confirmation self user_id response
      = inr (emit self [Send MReprompt])
      /\ pending_confirmations (emit self [Send MReprompt])
         = pending_confirmations self)
  /\ (forall bot', _handle_confirmation self user_id response = inr bot' ->
      base.NoDup (map_to_list (pending_confirmations bot')).*1).
Proof.
  intros Hp answer popped.
  split; [apply lookup_delete_eq|].
  split; [|split; [|split]].
  - intros Ha. unfold _handle_confirmation. fold answer. rewrite Ha, Hp.
    split; [reflexivity|].
    unfold _execute_commands.
    match goal with
    | |- context [execute_loop ?s ?u ?a ?c ?v ?sc ?i ?t ?r] =>
        destruct (execute_loop_pending u a c v sc t s i r)
          as (bot' & -> & Hpend)
    end.
    exists bot'. split; [reflexivity|].
    cbn [pending_confirmations emit set_pending now] in Hpend.
    destruct Hpend as [-> | (f & _ & ->)].
    + left. apply lookup_delete_eq.
    + right. exists f. apply lookup_insert_eq.
  - intros Hn. unfold _handle_confirmation. fold answer.
    destruct (mem answer AFFIRMATIVE) eqn:Ha.
    + rewrite (affirmative_not_negative _ Ha) in Hn. discriminate.
    + rewrite Hn, Hp. reflexivity.
  - intros Ha Hn. unfold _handle_confirmation. fold answer.
    rewrite Ha, Hn. split; reflexivity.
  - intros bot' _. apply NoDup_fst_map_to_list.
Qed.

(** A user with a pending entry answers yes, in capitals and with spaces
    around. *)
Lemma handle_confirmation_pending_witness :
  pending_confirmations sample_bot !! "+15550100"
  = Some (mkPending ["systemctl stop nginx"] ∅ 0)
  /\ exists bot',
       _handle_confirmation sample_bot "+15550100" " YES " = inr bot'
       /\ (pending_confirmations bot' !! "+15550100" = None
           \/ exists f,
                pending_confirmations bot' !! "+15550100"
                = Some (mkPending [f] ∅ 0)).
Proof.
  assert (H : pending_confirmations sample_bot !! "+15550100"
              = Some (mkPending ["systemctl stop nginx"] ∅ 0))
    by apply lookup_singleton_eq.
  split; [exact H|].
  destruct (handle_confirmation_pending sample_bot "+15550100" " YES " _ H)
    as (_ & Hyes & _).
  destruct (Hyes eq_refl) as (_ & bot' & E & Hpend).
  exists bot'. split; [exact E | exact Hpend].
Defined.

(** The scenario of an answer that is neither a yes nor a no. *)
Example handle_confirmation_maybe :
  _handle_confirmation sample_bot "+15550100" "maybe"
  = inr (emit sample_bot [Send MReprompt]).
Proof. reflexivity. Qed.

(** Answers are compared after lower-casing and stripping. *)
Example affirmative_any_case :
  forallb (fun response => mem (strip (lower response)) AFFIRMATIVE)
          ["yes"; "YES"; " Y "; "Confirm"; "PrOcEeD"] = true
  /\ forallb (fun response => mem (strip (lower response)) NEGATIVE)
             ["no"; "N"; "Cancel "; "ABORT"] = true.
Proof. split; reflexivity. Qed.

(* ===================================================================== *)
(** * Further properties of the modelled code *)
(* ===================================================================== *)

(** ** Whitespace around a command *)

Lemma lstrip_allspace (w : string) : allspace w = true -> lstrip w = "".
Proof.
  induction w as [|c w IH]; [reflexivity|]. cbn [allspace lstrip].
  intros [-> Hw]%andb_true_iff. auto.
Qed.

Lemma lstrip_spaces_app (w s : string) :
  allspace w = true -> lstrip (w ++ s) = lstrip s.
Proof.
  induction w as [|c w IH]; [reflexivity|]. cbn [allspace].
  intros [Hc Hw]%andb_true_iff. rewrite sapp_cons. cbn [lstrip].
  rewrite Hc. auto.
Qed.

Lemma lstrip_nil (s : string) : lstrip s = "" -> allspace s = true.
Proof.
  induction s as [|c s IH]; [reflexivity|]. cbn [lstrip allspace].
  destruct (isspace c); [auto|discriminate].
Qed.

Lemma lstrip_app (s x : string) :
  lstrip s <> "" -> lstrip (s ++ x) = lstrip s ++ x.
Proof.
  induction s as [|c s IH]; [intros H; cbn in H; congruence|].
  rewrite sapp_cons. cbn [lstrip].
  destruct (isspace c); [exact IH|reflexivity].
Qed.

Lemma rstrip_allspace (w : string) : allspace w = true -> rstrip w = "".
Proof.
  induction w as [|c w IH]; [reflexivity|]. cbn [allspace rstrip].
  intros [-> Hw]%andb_true_iff. rewrite (IH Hw). reflexivity.
Qed.

Lemma rstrip_nil (s : string) : rstrip s = "" -> allspace s = true.
Proof.
  induction s as [|c s IH]; [reflexivity|]. cbn [allspace].
  destruct (rstrip_cons c s) as [(_ & -> & Hr) | ->]; [auto|discriminate].
Qed.

Lemma rstrip_app_spaces (s w : string) :
  allspace w = true -> rstrip (s ++ w) = rstrip s.
Proof.
  intros Hw. induction s as [|c s IH].
  - rewrite sapp_nil_l. apply rstrip_allspace, Hw.
  - rewrite sapp_cons. cbn [rstrip]. rewrite IH. reflexivity.
Qed.

Lemma allspace_split (s : string) :
  allspace s = true \/ lstrip s <> "".
Proof.
  destruct (lstrip s) eqn:E; [left; apply lstrip_nil, E|right; discriminate].
Qed.

(** The stripped command is empty exactly for a blank command. *)
Lemma strip_nil_iff (s : string) : strip s = "" <-> allspace s = true.
Proof.
  unfold strip. split.
  - intros H%rstrip_nil. destruct (allspace_split s) as [Hs|Hne]; [exact Hs|].
    exfalso. apply Hne. clear Hne.
    induction s as [|c s IH]; [reflexivity|]. cbn [lstrip] in *.
    destruct (isspace c) eqn:Hc; [auto|].
    cbn [allspace] in H. rewrite Hc in H. discriminate.
  - intros H. rewrite (lstrip_allspace _ H). reflexivity.
Qed.

(** Whitespace on either side does not change the stripped command. *)
Lemma strip_padded (w1 w2 s : string) :
  allspace w1 = true -> allspace w2 = true ->
  strip (w1 ++ s ++ w2) = strip s.
Proof.
  intros H1 H2. unfold strip. rewrite lstrip_spaces_app by exact H1.
  destruct (allspace_split s) as [Hs|Hne].
  - rewrite (lstrip_allspace s Hs).
    rewrite lstrip_allspace; [reflexivity|].
    rewrite allspace_app, Hs, H2. reflexivity.
  - rewrite lstrip_app by exact Hne. apply rstrip_app_spaces, H2.
Qed.

(** ** More about [check_command] *)

(** A critical match in the command and one in the stripped command come
    to the same. *)
Lemma critical_match_strip (command : string) :
  existsb (fun p => search p (strip command)) CRITICAL_PATTERNS
  = existsb (fun p => search p command) CRITICAL_PATTERNS.
Proof.
  apply eq_true_iff_eq. rewrite !existsb_exists.
  split; intros (p & Hin & Hs); exists p; (split; [exact Hin|]).
  - pose proof all_patterns_extend as Hext. rewrite forallb_forall in Hext.
    apply search_strip_back; [apply Hext, in_or_app; auto | exact Hs].
  - apply (critical_survives_strip p command Hin Hs).
Qed.

(** X1.  A blank command, empty or made of whitespace only, is rejected as
    an empty command at risk level low, whatever the safety level. *)
Theorem check_command_blank (self : Safety) (command : string) :
  allspace command = true -> check_command self command = empty_verdict.
Proof.
  intros H%strip_nil_iff. unfold check_command. rewrite H. reflexivity.
Qed.

(** Three spaces and a tab. *)
Lemma check_command_blank_witness :
  allspace (String " " (String " " (String " " (String "009" ""))))  = true
  /\ check_command (init None None "low")
                   (String " " (String " " (String " " (String "009" ""))))
     = empty_verdict.
Proof.
  assert (H : allspace (String " " (String " " (String " " (String "009" ""))))
              = true) by reflexivity.
  split; [exact H|]. exact (check_command_blank _ _ H).
Defined.

(** X2.  A classifier built by the constructor rejects a command
    ([is_safe = false]) exactly when the command is blank or some built-in
    critical pattern finds a match in it; neither the safety level nor the
    extension lists play a part. *)
Theorem check_command_blocked_iff
  (blocked : option (list re)) (requires : option (list string))
  (level command : string) :
  is_safe (check_command (init blocked requires level) command) = false
  <-> allspace command = true
      \/ exists pattern, In pattern CRITICAL_PATTERNS
                         /\ search pattern command = true.
Proof.
  rewrite <- strip_nil_iff, <- existsb_exists, <- critical_match_strip.
  unfold check_command. cbn [compiled_critical compiled_high_risk init].
  destruct (String.eqb_spec (strip command) "") as [E|E].
  { cbn. tauto. }
  destruct (existsb _ CRITICAL_PATTERNS).
  { cbn. tauto. }
  assert (Hrest : forall v : SafetyResult,
             is_safe v = true ->
             is_safe v = false <-> strip command = "" \/ false = true).
  { intros v ->. split; [discriminate|]. intros [?|?]; congruence. }
  repeat match goal with
         | |- context [if ?b then _ else _] => destruct b
         end; apply Hrest; reflexivity.
Qed.

(** X3.  Whitespace before and after a command never changes its verdict. *)
Theorem check_command_padding (self : Safety) (w1 w2 command : string) :
  allspace w1 = true -> allspace w2 = true ->
  check_command self (w1 ++ command ++ w2) = check_command self command.
Proof.
  intros H1 H2. unfold check_command. rewrite (strip_padded _ _ _ H1 H2).
  reflexivity.
Qed.

(** Two spaces in front, a space and a newline behind. *)
Lemma check_command_padding_witness :
  allspace "  " = true /\ allspace (String " " (String "010" "")) = true
  /\ check_command (init None None "medium")
                   ("  " ++ "reboot" ++ String " " (String "010" ""))
     = check_command (init None None "medium") "reboot".
Proof.
  assert (H1 : allspace "  " = true) by reflexivity.
  assert (H2 : allspace (String " " (String "010" "")) = true) by reflexivity.
  split; [exact H1|]. split; [exact H2|].
  exact (check_command_padding _ _ _ "reboot" H1 H2).
Defined.

(** The verdict of a classifier built by the constructor, rule by rule. *)
Lemma check_command_rules
  (blocked : option (list re)) (requires : option (list string))
  (level command : string) :
  check_command (init blocked requires level) command
  = if String.eqb (strip command) "" then empty_verdict
    else if existsb (fun p => search p (strip command)) CRITICAL_PATTERNS
    then blocked_verdict
    else if existsb (fun p => search p (strip command)) HIGH_RISK_PATTERNS
    then high_risk_verdict
    else if _is_safe_command (strip command) then safe_verdict
    else if String.eqb level "high" then strict_verdict
    else if String.eqb level "medium"
            && existsb (fun cmd => contains cmd (strip command))
                 (CONFIRMATION_COMMANDS
                  ++ match requires with Some l => l | None => [] end)
    then listed_verdict
    else passed_verdict.
Proof. reflexivity. Qed.

(** X4.  A stricter safety level never relaxes a verdict: [is_safe] is the
    same at every level, and a command that requires confirmation at some
    level requires it at level high. *)
Theorem check_command_level_monotone
  (blocked : option (list re)) (requires : option (list string))
  (level1 level2 command : string) :
  is_safe (check_command (init blocked requires level1) command)
  = is_safe (check_command (init blocked requires level2) command)
  /\ (requires_confirmation
        (check_command (init blocked requires level1) command) = true ->
      requires_confirmation
        (check_command (init blocked requires "high") command) = true).
Proof.
  rewrite !check_command_rules.
  destruct (String.eqb (strip command) ""); [split; [reflexivity|auto]|].
  destruct (existsb _ CRITICAL_PATTERNS); [split; [reflexivity|auto]|].
  destruct (existsb _ HIGH_RISK_PATTERNS); [split; [reflexivity|auto]|].
  destruct (_is_safe_command (strip command)); [split; [reflexivity|auto]|].
  cbn [String.eqb Ascii.eqb Bool.eqb].
  split; [|reflexivity].
  repeat match goal with
         | |- context [if ?b then _ else _] => destruct b
         end; reflexivity.
Qed.

(** X5.  A safety level other than the texts [high] and [medium], a
    misspelt one included, behaves as [low]. *)
Theorem check_command_unknown_level
  (blocked : option (list re)) (requires : option (list string))
  (level command : string) :
  level <> "high" -> level <> "medium" ->
  check_command (init blocked requires level) command
  = check_command (init blocked requires "low") command.
Proof.
  intros Hh%String.eqb_neq Hm%String.eqb_neq.
  rewrite !check_command_rules, Hh, Hm. reflexivity.
Qed.

(** The level [High], with a capital, lets [mkdir backup] through. *)
Lemma check_command_unknown_level_witness :
  "High" <> "high" /\ "High" <> "medium"
  /\ check_command (init None None "High") "mkdir backup" = passed_verdict
  /\ check_command (init None None "high") "mkdir backup" = strict_verdict.
Proof.
  assert (H1 : "High" <> "high") by discriminate.
  assert (H2 : "High" <> "medium") by discriminate.
  split; [exact H1|]. split; [exact H2|]. split; [|reflexivity].
  rewrite (check_command_unknown_level None None "High" "mkdir backup" H1 H2).
  reflexivity.
Defined.

(** X6.  When a high-risk pattern finds a match in the stripped command and
    no critical pattern finds one in the command, the verdict is safe with
    confirmation at risk level high, at every safety level and also for a
    command on the safe allowlist. *)
Theorem check_command_high_risk
  (blocked : option (list re)) (requires : option (list string))
  (level command : string) :
  (exists pattern, In pattern HIGH_RISK_PATTERNS
                   /\ search pattern (strip command) = true) ->
  (forall pattern, In pattern CRITICAL_PATTERNS ->
                   search pattern command = false) ->
  check_command (init blocked requires level) command = high_risk_verdict.
Proof.
  intros Hhigh Hcrit. rewrite check_command_rules.
  destruct (String.eqb_spec (strip command) "") as [E|_].
  { exfalso. destruct Hhigh as (p & Hin & Hs). rewrite E in Hs.
    assert (Hnone : existsb (fun p => search p "") HIGH_RISK_PATTERNS = false)
      by reflexivity.
    rewrite existsb_false_forall in Hnone. rewrite (Hnone p Hin) in Hs.
    discriminate. }
  rewrite critical_match_strip.
  apply existsb_false_forall in Hcrit. rewrite Hcrit.
  apply existsb_exists in Hhigh. rewrite Hhigh. reflexivity.
Qed.

(** [echo reboot] is on the allowlist and matches the pattern [reboot]. *)
Lemma check_command_high_risk_witness :
  (exists pattern, In pattern HIGH_RISK_PATTERNS
                   /\ search pattern (strip "echo reboot") = true)
  /\ (forall pattern, In pattern CRITICAL_PATTERNS ->
                      search pattern "echo reboot" = false)
  /\ _is_safe_command "echo reboot" = true
  /\ check_command (init None None "low") "echo reboot" = high_risk_verdict.
Proof.
  assert (H1 : exists pattern, In pattern HIGH_RISK_PATTERNS
                               /\ search pattern (strip "echo reboot") = true).
  { exists (lits "reboot"). split; [|reflexivity].
    do 8 right. left. reflexivity. }
  assert (H2 : forall pattern, In pattern CRITICAL_PATTERNS ->
                               search pattern "echo reboot" = false).
  { apply existsb_false_forall. reflexivity. }
  split; [exact H1|]. split; [exact H2|]. split; [reflexivity|].
  exact (check_command_high_risk None None "low" "echo reboot" H1 H2).
Defined.

Lemma existsb_app_r {A : Type} (f : A -> bool) (l1 l2 : list A) (x : A) :
  In x l2 -> f x = true -> existsb f (l1 ++ l2) = true.
Proof.
  intros Hin Hf. apply existsb_exists. exists x. split; [|exact Hf].
  apply in_or_app. auto.
Qed.

(** X7.  A name given to the constructor in [requires_confirmation] is
    honoured at level medium: a command that contains it and is not on the
    safe allowlist is never approved without confirmation. *)
Theorem check_command_extension_confirmation
  (blocked : option (list re)) (requires : list string)
  (name command : string) :
  In name requires -> contains name (strip command) = true ->
  _is_safe_command (strip command) = false ->
  let verdict := check_command (init blocked (Some requires) "medium") command in
  is_safe verdict = false \/ requires_confirmation verdict = true.
Proof.
  intros Hin Hc Hsafe verdict. subst verdict. rewrite check_command_rules.
  destruct (String.eqb (strip command) ""); [left; reflexivity|].
  destruct (existsb _ CRITICAL_PATTERNS); [left; reflexivity|].
  destruct (existsb _ HIGH_RISK_PATTERNS); [right; reflexivity|].
  rewrite Hsafe. cbn [String.eqb Ascii.eqb Bool.eqb andb].
  rewrite (existsb_app_r _ CONFIRMATION_COMMANDS requires name Hin Hc).
  right. reflexivity.
Qed.

(** With [curl] as an extension name, [curl http://example.com] requires
    confirmation at level medium. *)
Lemma check_command_extension_confirmation_witness :
  In "curl" ["curl"] /\ contains "curl" (strip "curl http://example.com") = true
  /\ _is_safe_command (strip "curl http://example.com") = false
  /\ (is_safe (check_command (init None (Some ["curl"]) "medium")
                             "curl http://example.com") = false
      \/ requires_confirmation
           (check_command (init None (Some ["curl"]) "medium")
                          "curl http://example.com") = true).
Proof.
  assert (H1 : In "curl" ["curl"]) by (left; reflexivity).
  assert (H2 : contains "curl" (strip "curl http://example.com") = true)
    by reflexivity.
  assert (H3 : _is_safe_command (strip "curl http://example.com") = false)
    by reflexivity.
  split; [exact H1|]. split; [exact H2|]. split; [exact H3|].
  exact (check_command_extension_confirmation None ["curl"] "curl"
           "curl http://example.com" H1 H2 H3).
Defined.

(** ** [validate_ssh_command] *)

Lemma strip_sudo (rest : string) :
  allspace rest = false -> startswith (strip ("sudo " ++ rest)) "sudo " = true.
Proof.
  intros Hrest. unfold strip, startswith.
  change ("sudo " ++ rest) with ("sudo" ++ String " " rest).
  rewrite (lstrip_app_keep "sudo" _ ltac:(discriminate) eq_refl).
  rewrite (rstrip_app_keep "sudo" _ ltac:(discriminate) eq_refl).
  destruct (rstrip_cons " " rest) as [(_ & _ & Hr) | ->].
  - apply rstrip_nil in Hr. congruence.
  - apply prefix_app. exists (rstrip rest). reflexivity.
Qed.

(** X8.  What follows [sudo] is never inspected: a command made of [sudo],
    a space and any text that is not blank is refused when sudo is not
    allowed, and is returned safe with confirmation when it is, also when
    [check_command] would block it. *)
Theorem validate_ssh_command_sudo (self : Safety) (rest : string) :
  allspace rest = false ->
  validate_ssh_command self ("sudo " ++ rest) false = sudo_denied_verdict
  /\ validate_ssh_command self ("sudo " ++ rest) true = sudo_confirm_verdict.
Proof.
  intros H. unfold validate_ssh_command. rewrite (strip_sudo rest H).
  split; reflexivity.
Qed.

(** [sudo rm -rf /] is blocked by [check_command] and passes
    [validate_ssh_command] when sudo is allowed. *)
Lemma validate_ssh_command_sudo_witness :
  allspace "rm -rf /" = false
  /\ check_command (init None None "high") "sudo rm -rf /" = blocked_verdict
  /\ validate_ssh_command (init None None "high") ("sudo " ++ "rm -rf /") true
     = sudo_confirm_verdict.
Proof.
  assert (H : allspace "rm -rf /" = false) by reflexivity.
  split; [exact H|]. split; [reflexivity|].
  exact (proj2 (validate_ssh_command_sudo (init None None "high") _ H)).
Defined.

(** X9.  When sudo is not allowed, [validate_ssh_command] rejects every
    command in which a critical pattern finds a match. *)
Theorem validate_ssh_command_critical
  (blocked : option (list re)) (requires : option (list string))
  (level command : string) :
  (exists pattern, In pattern CRITICAL_PATTERNS
                   /\ search pattern command = true) ->
  is_safe (validate_ssh_command (init blocked requires level) command false)
  = false.
Proof.
  intros Hcrit. unfold validate_ssh_command.
  destruct (startswith (strip command) "sudo "); [reflexivity|].
  rewrite check_command_rules, critical_match_strip.
  apply existsb_exists in Hcrit. rewrite Hcrit.
  destruct (String.eqb (strip command) ""); reflexivity.
Qed.

Lemma validate_ssh_command_critical_witness :
  (exists pattern, In pattern CRITICAL_PATTERNS
                   /\ search pattern "sudo mkfs.ext4 /dev/sda1" = true)
  /\ is_safe (validate_ssh_command (init None None "low")
                                   "sudo mkfs.ext4 /dev/sda1" false) = false.
Proof.
  assert (H : exists pattern, In pattern CRITICAL_PATTERNS
                /\ search pattern "sudo mkfs.ext4 /dev/sda1" = true).
  { eexists. split; [do 2 right; left; reflexivity | reflexivity]. }
  split; [exact H|].
  exact (validate_ssh_command_critical None None "low" _ H).
Defined.

(** ** [check_file_operation] *)


(** ** [DryRun._analyze_effects] *)

Lemma contains_spec (needle hay : string) :
  contains needle hay = true <-> exists pre post, hay = pre ++ needle ++ post.
Proof.
  induction hay as [|c hay IH]; cbn [contains]; rewrite orb_true_iff, prefix_app.
  - split.
    + intros [(x & E) | H]; [|discriminate]. exists "", x. exact E.
    + intros (pre & post & E). left. symmetry in E.
      apply sapp_eq_nil in E as [-> E]. apply sapp_eq_nil in E as [-> ->].
      exists "". reflexivity.
  - rewrite IH. split.
    + intros [(x & E) | (pre & post & ->)].
      * exists "", x. exact E.
      * exists (String c pre), post. reflexivity.
    + intros (pre & post & E). destruct pre as [|d pre].
      * left. exists post. exact E.
      * right. rewrite sapp_cons in E. inversion E. eauto.
Qed.

(** A text that contains [restart] contains [start]. *)
Lemma contains_restart_start (command : string) :
  contains "restart" command = true -> contains "start" command = true.
Proof.
  rewrite !contains_spec. intros (pre & post & ->).
  exists (pre ++ "re"), post. rewrite sapp_assoc. reflexivity.
Qed.

Lemma In_when (x : string) (b : bool) (lines : list string) :
  In x (when b lines) -> In x lines.
Proof. destruct b; [auto|intros []]. Qed.

(** X11.  The line about restarting a service is never produced: a command
    that mentions [restart] mentions [start], which is tested first, so a
    [systemctl restart] is described as starting a service. *)
Theorem analyze_effects_restart (command : string) :
  ~ In "Will restart a service (brief downtime)" (_analyze_effects command)
  /\ (contains "systemctl" command = true ->
      contains "restart" command = true ->
      In "Will start a service" (_analyze_effects command)).
Proof.
  split.
  - unfold _analyze_effects. intros Hin.
    match type of Hin with
    | In ?x (match ?e with [] => ?d | _ => _ end) =>
        assert (H : In x e \/ In x d) by (destruct e; [right|left]; exact Hin)
    end.
    clear Hin. destruct H as [H|H]; [|cbn in H; intuition discriminate].
    repeat (apply in_app_or in H; destruct H as [H|H]);
      apply In_when in H;
      try (cbn in H; intuition discriminate).
    + apply in_app_or in H. destruct H as [H|H];
        [apply In_when in H; cbn in H; intuition discriminate|].
      apply in_app_or in H. destruct H as [H|H];
        [apply In_when in H|]; cbn in H; intuition discriminate.
    + destruct (contains "start" command) eqn:Hs;
        [cbn in H; intuition discriminate|].
      destruct (contains "stop" command); [cbn in H; intuition discriminate|].
      destruct (contains "restart" command) eqn:Hr; [|destruct H].
      rewrite (contains_restart_start _ Hr) in Hs. discriminate.
  - intros Hsys Hre. unfold _analyze_effects.
    rewrite Hsys, (contains_restart_start _ Hre).
    match goal with
    | |- In ?x (match ?e with [] => _ | _ => _ end) =>
        assert (H : In x e);
        [|destruct e; [destruct H|exact H]]
    end.
    repeat (apply in_or_app; first [left; left; reflexivity | right]).
Qed.

Example analyze_effects_restart_nginx :
  _analyze_effects "systemctl restart nginx" = ["Will start a service"].
Proof. reflexivity. Qed.

Lemma analyze_effects_restart_witness :
  contains "systemctl" "systemctl restart nginx" = true
  /\ contains "restart" "systemctl restart nginx" = true
  /\ In "Will start a service" (_analyze_effects "systemctl restart nginx").
Proof.
  assert (H1 : contains "systemctl" "systemctl restart nginx" = true)
    by reflexivity.
  assert (H2 : contains "restart" "systemctl restart nginx" = true)
    by reflexivity.
  split; [exact H1|]. split; [exact H2|].
  exact (proj2 (analyze_effects_restart "systemctl restart nginx") H1 H2).
Defined.

(* ===================================================================== *)
(** ** More about the execution engine *)
(* ===================================================================== *)

Lemma sapp_not_nil (a b : string) : a <> "" -> a ++ b <> "".
Proof. intros Ha E. apply sapp_eq_nil in E as [E _]. auto. Qed.

Section LoopShape.
Variable self : Executor.
Variable command : string.
Variable retry_on_failure : bool.

Local Abbreviation bound := (retry_bound self retry_on_failure).

Lemma local_loop_shape (fuel : nat) : forall retries w r w',
  local_loop self command retry_on_failure fuel retries w = Some (r, w') ->
  well_shaped r
  /\ exists n, w' = ticks w command n
               /\ (n <= Z.to_nat (bound + 1 - retries))%nat.
Proof.
  unfold well_shaped.
  induction fuel as [|fuel IH]; intros retries w r w'; [discriminate|].
  cbn [local_loop].
  destruct (retries <=? bound)%Z eqn:Hle.
  - apply Z.leb_le in Hle.
    destruct (run_local w command (clock w)) as [rc out err| |e].
    + destruct (Z.eqb_spec rc 0) as [->|Hrc].
      * intros [= <- <-]. cbn. split; [tauto|].
        exists 1%nat. split; [reflexivity|bound_lia].
      * destruct (retry_on_failure && (retries <? max_retries self)%Z) eqn:Hre.
        -- intros H. apply IH in H as (Hshape & n & -> & Hn).
           split; [exact Hshape|]. exists (S n). split; [reflexivity|].
           bound_lia.
        -- intros [= <- <-]. cbn. split.
           ++ split; (split; [discriminate|]); [congruence|].
              intros E. apply sapp_not_nil in E; [destruct E|discriminate].
           ++ exists 1%nat. split; [reflexivity|bound_lia].
    + intros [= <- <-]. cbn. split.
      * split; (split; [discriminate|]); [discriminate|].
        intros E. apply sapp_not_nil in E; [destruct E|discriminate].
      * exists 1%nat. split; [reflexivity|bound_lia].
    + intros [= <- <-]. cbn. split.
      * split; (split; [discriminate|]); [discriminate|].
        intros E. apply sapp_not_nil in E; [destruct E|discriminate].
      * exists 1%nat. split; [reflexivity|bound_lia].
  - intros [= <- <-]. cbn. split.
    + split; (split; discriminate).
    + exists 0%nat. split; [reflexivity|lia].
Qed.

End LoopShape.

Section RemoteLoopShape.
Variable self : Executor.
Variable command : string.
Variable ssh_config : SshConfig.
Variable retry_on_failure : bool.

Local Abbreviation bound := (retry_bound self retry_on_failure).

Lemma remote_loop_shape (fuel : nat) : forall retries w r w',
  remote_loop self command ssh_config retry_on_failure fuel retries w = Some (r, w') ->
  well_shaped r
  /\ exists n, w' = ticks w command n
               /\ (n <= Z.to_nat (bound + 1 - retries))%nat.
Proof.
  unfold well_shaped.
  induction fuel as [|fuel IH]; intros retries w r w'; [discriminate|].
  cbn [remote_loop].
  destruct (retries <=? bound)%Z eqn:Hle.
  - apply Z.leb_le in Hle.
    destruct (run_remote w ssh_config command (clock w)) as [rc out err|e|e].
    + destruct (Z.eqb_spec rc 0) as [->|Hrc].
      * intros [= <- <-]. cbn. split; [tauto|].
        exists 1%nat. split; [reflexivity|bound_lia].
      * destruct (retry_on_failure && (retries <? max_retries self)%Z) eqn:Hre.
        -- intros H. apply IH in H as (Hshape & n & -> & Hn).
           split; [exact Hshape|]. exists (S n). split; [reflexivity|].
           bound_lia.
        -- intros [= <- <-]. cbn. split.
           ++ split; (split; [discriminate|]); [congruence|].
              intros E. apply sapp_not_nil in E; [destruct E|discriminate].
           ++ exists 1%nat. split; [reflexivity|bound_lia].
    + intros [= <- <-]. cbn. split.
      * split; (split; [discriminate|]); [discriminate|].
        intros E. apply sapp_not_nil in E; [destruct E|discriminate].
      * exists 1%nat. split; [reflexivity|bound_lia].
    + intros [= <- <-]. cbn. split.
      * split; (split; [discriminate|]); [discriminate|].
        intros E. apply sapp_not_nil in E; [destruct E|discriminate].
      * exists 1%nat. split; [reflexivity|bound_lia].
  - intros [= <- <-]. cbn. split.
    + split; (split; discriminate).
    + exists 0%nat. split; [reflexivity|lia].
Qed.

End RemoteLoopShape.

(** X12.  Every execution returns a result about the command it was given
    whose flags agree: [success] holds exactly when the exit status is 0
    and exactly when the error message is empty. *)
Theorem execute_result_shape
  (self : Executor) (command : string) (vps : option string)
  (ssh_config : option SshConfig) (retry_on_failure : bool)
  (use_cline_arg : option bool) (w : World) :
  exists r w',
    execute self command vps ssh_config retry_on_failure use_cline_arg w
    = Some (r, w')
    /\ Executor.command r = command
    /\ (success r = true <-> return_code r = 0%Z)
    /\ (success r = true <-> error_message r = "").
Proof.
  destruct (execute_total self command vps ssh_config retry_on_failure
              use_cline_arg w) as (r & w' & n & E & Hc & _).
  exists r, w'. split; [exact E|]. split; [exact Hc|].
  destruct (if opt_truthy vps then ssh_config else None) as [cfg|] eqn:Ht.
  - rewrite (execute_remote_eq _ _ _ _ _ _ _ cfg Ht) in E.
    apply remote_loop_shape in E as [Hs _]. exact Hs.
  - rewrite (execute_local_eq _ _ _ _ _ _ _ Ht) in E.
    apply local_loop_shape in E as [Hs _]. exact Hs.
Qed.

(** X13.  An execution never makes more than [max_retries + 1] attempts,
    or more than one when retrying is switched off; with a negative budget
    it makes none. *)
Theorem execute_attempts_bounded
  (self : Executor) (command : string) (vps : option string)
  (ssh_config : option SshConfig) (retry_on_failure : bool)
  (use_cline_arg : option bool) (w : World) :
  exists r n,
    execute self command vps ssh_config retry_on_failure use_cline_arg w
    = Some (r, ticks w command n)
    /\ (n <= Z.to_nat (retry_bound self retry_on_failure + 1))%nat
    /\ clock (ticks w command n) = (clock w + n)%nat
    /\ trace (ticks w command n) = (trace w ++ repeat command n)%list.
Proof.
  destruct (execute_total self command vps ssh_config retry_on_failure
              use_cline_arg w) as (r & w' & n & E & _).
  assert (H : exists n, w' = ticks w command n
              /\ (n <= Z.to_nat (retry_bound self retry_on_failure + 1 - 0))%nat).
  { destruct (if opt_truthy vps then ssh_config else None) as [cfg|] eqn:Ht.
    - rewrite (execute_remote_eq _ _ _ _ _ _ _ cfg Ht) in E.
      apply remote_loop_shape in E as [_ H]. exact H.
    - rewrite (execute_local_eq _ _ _ _ _ _ _ Ht) in E.
      apply local_loop_shape in E as [_ H]. exact H. }
  destruct H as (m & -> & Hm). exists r, m.
  split; [exact E|]. split; [bound_lia|].
  split; [apply ticks_clock | apply ticks_trace].
Qed.

(** X14.  With [retry_on_failure] switched off an execution makes exactly
    one attempt and reports [retries = 0], whatever [max_retries] is. *)
Theorem execute_without_retry
  (self : Executor) (command : string) (vps : option string)
  (ssh_config : option SshConfig) (use_cline_arg : option bool) (w : World) :
  exists r,
    execute self command vps ssh_config false use_cline_arg w
    = Some (r, tick w command)
    /\ retries r = 0%Z.
Proof.
  destruct (if opt_truthy vps then ssh_config else None) as [cfg|] eqn:Ht.
  - rewrite (execute_remote_eq _ _ _ _ _ _ _ cfg Ht).
    unfold _execute_remote, loop_fuel. cbn.
    destruct (run_remote w cfg command (clock w)) as [rc out err|e|e];
      [destruct (rc =? 0)%Z|..]; eexists; split; reflexivity.
  - rewrite (execute_local_eq _ _ _ _ _ _ _ Ht).
    unfold _execute_local, loop_fuel. cbn.
    destruct (run_local w command (clock w)) as [rc out err| |e];
      [destruct (rc =? 0)%Z|..]; eexists; split; reflexivity.
Qed.

(** X15.  When every attempt within the budget exits with a nonzero
    status, the execution makes [max_retries + 1] attempts and returns a
    failure with [retries = max_retries] that carries the exit status of
    the last attempt. *)
Theorem execute_budget_exhausted
  (self : Executor) (command : string) (vps : option string)
  (ssh_config : option SshConfig) (use_cline_arg : option bool) (w : World) :
  (0 <= max_retries self)%Z ->
  (forall i, (Z.of_nat i <= max_retries self)%Z ->
     failed_exit (attempt_exit w vps ssh_config command (clock w + i)) = true) ->
  exists r,
    execute self command vps ssh_config true use_cline_arg w
    = Some (r, ticks w command (S (Z.to_nat (max_retries self))))
    /\ success r = false
    /\ retries r = max_retries self
    /\ attempt_exit w vps ssh_config command
         (clock w + Z.to_nat (max_retries self)) = Some (return_code r)
    /\ error_message r
       = "Command failed with exit code " ++ str_of_Z (return_code r).
Proof.
  unfold attempt_exit. intros Hmax Hfail.
  set (k := Z.to_nat (max_retries self)).
  assert (Hk : (Z.of_nat k <= retry_bound self true)%Z) by (cbn; lia).
  assert (Hbefore : forall i, (i < k)%nat -> (Z.of_nat i <= max_retries self)%Z)
    by lia.
  pose proof (Hfail k ltac:(lia)) as Hlast.
  assert (Hnot : (Z.of_nat k <? max_retries self)%Z = false)
    by (apply Z.ltb_ge; lia).
  destruct (if opt_truthy vps then ssh_config else None) as [cfg|] eqn:E.
  - rewrite (execute_remote_eq _ _ _ _ _ _ _ cfg E).
    destruct (execute_remote_skip self command cfg true k w Hk
                (fun i Hi => Hfail i (Hbefore i Hi))) as (fuel & ->).
    cbn [remote_loop].
    destruct (Z.leb_spec (Z.of_nat k) (retry_bound self true)); [|lia].
    rewrite ticks_run_remote, ticks_clock, ticks_snoc.
    destruct (run_remote w cfg command (clock w + k)) as [rc out err|e|e];
      cbn [remote_exit failed_exit] in Hlast; try discriminate.
    apply negb_true_iff in Hlast. rewrite Hlast, Hnot. cbn [andb].
    eexists. split; [reflexivity|]. cbn. repeat split. lia.
  - rewrite (execute_local_eq _ _ _ _ _ _ _ E).
    destruct (execute_local_skip self command true k w Hk
                (fun i Hi => Hfail i (Hbefore i Hi))) as (fuel & ->).
    cbn [local_loop].
    destruct (Z.leb_spec (Z.of_nat k) (retry_bound self true)); [|lia].
    rewrite ticks_run_local, ticks_clock, ticks_snoc.
    destruct (run_local w command (clock w + k)) as [rc out err| |e];
      cbn [local_exit failed_exit] in Hlast; try discriminate.
    apply negb_true_iff in Hlast. rewrite Hlast, Hnot. cbn [andb].
    eexists. split; [reflexivity|]. cbn. repeat split. lia.
Qed.

(** In a world where [false] always fails, the default executor tries it
    four times. *)
Lemma execute_budget_exhausted_witness :
  (0 <= max_retries default_executor)%Z
  /\ exists r,
       execute default_executor "false" None None true None picky_world
       = Some (r, ticks picky_world "false" 4)
       /\ success r = false /\ retries r = 3%Z.
Proof.
  assert (H0 : (0 <= max_retries default_executor)%Z)
    by (vm_compute; discriminate).
  split; [exact H0|].
  destruct (execute_budget_exhausted default_executor "false" None None None
              picky_world H0 (fun i _ => eq_refl))
    as (r & E & Hs & Hr & _).
  exists r. split; [exact E|]. split; [exact Hs|exact Hr].
Defined.

(** X16.  With a negative [max_retries] and retrying switched on, no
    attempt is made at all: the command is not run and the result is the
    failure [Max retries exceeded]. *)
Theorem execute_negative_budget
  (self : Executor) (command : string) (vps : option string)
  (ssh_config : option SshConfig) (use_cline_arg : option bool) (w : World) :
  (max_retries self < 0)%Z ->
  execute self command vps ssh_config true use_cline_arg w
  = Some (mkResult false command "" "" (-1) 0 "Max retries exceeded", w).
Proof.
  intros Hneg.
  assert (Hle : (0 <=? retry_bound self true)%Z = false)
    by (apply Z.leb_gt; exact Hneg).
  destruct (if opt_truthy vps then ssh_config else None) as [cfg|] eqn:Ht.
  - rewrite (execute_remote_eq _ _ _ _ _ _ _ cfg Ht).
    unfold _execute_remote, loop_fuel. cbn [remote_loop]. rewrite Hle.
    reflexivity.
  - rewrite (execute_local_eq _ _ _ _ _ _ _ Ht).
    unfold _execute_local, loop_fuel. cbn [local_loop]. rewrite Hle.
    reflexivity.
Qed.

Lemma execute_negative_budget_witness :
  (max_retries negative_executor < 0)%Z
  /\ execute negative_executor "uptime" (Some "vps1") (Some sample_ssh)
             true None calm_world
     = Some (mkResult false "uptime" "" "" (-1) 0 "Max retries exceeded",
             calm_world).
Proof.
  assert (H : (max_retries negative_executor < 0)%Z) by reflexivity.
  split; [exact H|].
  exact (execute_negative_budget negative_executor "uptime" (Some "vps1")
           (Some sample_ssh) None calm_world H).
Defined.

Lemma loops_only_read_budget (self1 self2 : Executor) :
  max_retries self1 = max_retries self2 -> timeout self1 = timeout self2 ->
  forall command retry_on_failure fuel retries w,
    local_loop self1 command retry_on_failure fuel retries w
    = local_loop self2 command retry_on_failure fuel retries w
    /\ forall cfg,
         remote_loop self1 command cfg retry_on_failure fuel retries w
         = remote_loop self2 command cfg retry_on_failure fuel retries w.
Proof.
  intros Hm Ht command retry_on_failure fuel.
  induction fuel as [|fuel IH]; intros retries w; [split; reflexivity|].
  cbn [local_loop remote_loop]. unfold retry_bound. rewrite Hm, Ht.
  split; [|intros cfg];
    destruct (retries <=? _)%Z; try reflexivity.
  - destruct (run_local w command (clock w)); try reflexivity.
    destruct (rc =? 0)%Z; [reflexivity|].
    destruct (retry_on_failure && _); [apply IH|reflexivity].
  - destruct (run_remote w cfg command (clock w)); try reflexivity.
    destruct (rc =? 0)%Z; [reflexivity|].
    destruct (retry_on_failure && _); [apply IH|reflexivity].
Qed.

(** X17.  The Cline settings have no effect: two executors with the same
    [max_retries] and [timeout] return the same result and leave the same
    world, whatever [use_cline], [cline_path] and the [use_cline] argument
    of the call are. *)
Theorem execute_ignores_cline
  (self1 self2 : Executor) (command : string) (vps : option string)
  (ssh_config : option SshConfig) (retry_on_failure : bool)
  (use_cline1 use_cline2 : option bool) (w : World) :
  max_retries self1 = max_retries self2 -> timeout self1 = timeout self2 ->
  execute self1 command vps ssh_config retry_on_failure use_cline1 w
  = execute self2 command vps ssh_config retry_on_failure use_cline2 w.
Proof.
  intros Hm Ht.
  assert (Hfuel : loop_fuel self1 retry_on_failure
                  = loop_fuel self2 retry_on_failure)
    by (unfold loop_fuel, retry_bound; rewrite Hm; reflexivity).
  destruct (if opt_truthy vps then ssh_config else None) as [cfg|] eqn:E.
  - rewrite !(execute_remote_eq _ _ _ _ _ _ _ cfg E).
    unfold _execute_remote. rewrite Hfuel.
    apply (loops_only_read_budget self1 self2 Hm Ht).
  - rewrite !(execute_local_eq _ _ _ _ _ _ _ E).
    unfold _execute_local. rewrite Hfuel.
    apply (loops_only_read_budget self1 self2 Hm Ht).
Qed.

Lemma execute_ignores_cline_witness :
  max_retries default_executor
  = max_retries (mkExecutor 3 300 false (Some "/usr/local/bin/cline"))
  /\ timeout default_executor
     = timeout (mkExecutor 3 300 false (Some "/usr/local/bin/cline"))
  /\ execute default_executor "df -h" None None true (Some true) flaky_world
     = execute (mkExecutor 3 300 false (Some "/usr/local/bin/cline"))
               "df -h" None None true (Some false) flaky_world.
Proof.
  split; [reflexivity|]. split; [reflexivity|].
  exact (execute_ignores_cline default_executor
           (mkExecutor 3 300 false (Some "/usr/local/bin/cline"))
           "df -h" None None true (Some true) (Some false) flaky_world
           eq_refl eq_refl).
Defined.

Local Close Scope string_scope.



Local Open Scope string_scope.

(** ** [CommandBuilder] and the classifier *)

(** A match of a pattern without [$] stays when text is appended. *)
Lemma search_app_r (p : re) (s x : string) :
  eol_free p = true -> search p s = true -> search p (s ++ x) = true.
Proof.
  intros Hf. rewrite !search_spec. intros (pre & m & post & -> & HM).
  exists pre, m, (post ++ x). rewrite !sapp_assoc. split; [reflexivity|].
  exact (Matches_ctx _ _ _ HM Hf _).
Qed.

(** A command that opens with a text matched by a high-risk pattern,
    followed by a space, is blocked or sent to confirmation. *)
Lemma opening_never_approved
  (blocked : option (list re)) (requires : option (list string))
  (level opening rest : string) (p : re) :
  In p HIGH_RISK_PATTERNS -> eol_free p = true ->
  opening <> "" -> lstrip opening = opening -> rstrip opening = opening ->
  search p opening = true ->
  let verdict :=
    check_command (init blocked requires level) (opening ++ String " " rest) in
  is_safe verdict = false \/ requires_confirmation verdict = true.
Proof.
  intros Hin Hf Hne Hl Hr Hs verdict. subst verdict.
  rewrite check_command_rules.
  assert (E : exists x, strip (opening ++ String " " rest) = opening ++ x).
  { unfold strip. rewrite (lstrip_app_keep _ _ Hne Hl).
    rewrite (rstrip_app_keep _ _ Hne Hr). eauto. }
  destruct E as (x & ->).
  destruct (String.eqb (opening ++ x) ""); [left; reflexivity|].
  destruct (existsb _ CRITICAL_PATTERNS); [left; reflexivity|].
  assert (Hh : existsb (fun q => search q (opening ++ x)) HIGH_RISK_PATTERNS
               = true).
  { apply existsb_exists. exists p. split; [exact Hin|].
    apply search_app_r; assumption. }
  rewrite Hh. right. reflexivity.
Qed.

(** X19.  [build_systemctl] raises [ValueError] exactly for an action that
    is not one of its seven valid ones; for [stop] and [disable] the
    command it builds is never approved without confirmation by
    [check_command], whatever the service name and the safety level. *)
Theorem build_systemctl_classified
  (blocked : option (list re)) (requires : option (list string))
  (level action service : string) :
  ((exists message, build_systemctl action service = inl message)
   <-> ~ In action valid_actions)
  /\ (action = "stop" \/ action = "disable" ->
      exists command,
        build_systemctl action service = inr command
        /\ let verdict := check_command (init blocked requires level) command in
           is_safe verdict = false \/ requires_confirmation verdict = true).
Proof.
  split.
  - unfold build_systemctl. rewrite <- mem_true.
    destruct (mem action valid_actions); cbn [negb].
    + split; [intros (m & E); discriminate | intros H; destruct H; reflexivity].
    + split; [discriminate | eauto].
  - intros [-> | ->]; (eexists; split; [reflexivity|]).
    + apply (opening_never_approved blocked requires level "systemctl stop"
               (shlex_quote service)
               (cat [lits "systemctl"; Plus sp;
                     Alt (lits "stop") (Alt (lits "disable") (lits "mask"))]));
        try reflexivity; [|discriminate].
      do 11 right. left. reflexivity.
    + apply (opening_never_approved blocked requires level "systemctl disable"
               (shlex_quote service)
               (cat [lits "systemctl"; Plus sp;
                     Alt (lits "stop") (Alt (lits "disable") (lits "mask"))]));
        try reflexivity; [|discriminate].
      do 11 right. left. reflexivity.
Qed.

Lemma build_systemctl_classified_witness :
  ("stop" = "stop" \/ "stop" = "disable")
  /\ build_systemctl "mask" "nginx" = inl "Invalid action: mask"
  /\ exists command,
       build_systemctl "stop" "my service" = inr command
       /\ (is_safe (check_command (init None None "low") command) = false
           \/ requires_confirmation
                (check_command (init None None "low") command) = true).
Proof.
  split; [left; reflexivity|]. split; [reflexivity|].
  exact (proj2 (build_systemctl_classified None None "low" "stop" "my service")
           (or_introl eq_refl)).
Defined.

(** X20.  A recursive [rm] built by [build_safe_rm] is never approved
    without confirmation by [check_command], whatever the paths and the
    safety level. *)
Theorem build_safe_rm_recursive_classified
  (blocked : option (list re)) (requires : option (list string))
  (level : string) (paths : list string) :
  let verdict :=
    check_command (init blocked requires level) (build_safe_rm paths true) in
  is_safe verdict = false \/ requires_confirmation verdict = true.
Proof.
  unfold build_safe_rm.
  apply (opening_never_approved blocked requires level "rm -r"
           (join_spaces (map shlex_quote paths))
           (cat [lits "rm"; Plus sp;
                 Alt (Seq (lits "-r") (Opt (lit "f")))
                     (Alt (lits "--force") (lits "--recursive"))]));
    try reflexivity; [|discriminate].
  left. reflexivity.
Qed.

(* ===================================================================== *)
(** ** More about the confirmation handling *)
(* ===================================================================== *)

Local Close Scope string_scope.

Lemma logged_results_app (es1 es2 : list Event) :
  logged_results (es1 ++ es2) = logged_results es1 ++ logged_results es2.
Proof.
  induction es1 as [|e es1 IH]; [reflexivity|].
  destruct e; cbn [logged_results app]; rewrite IH; reflexivity.
Qed.

(** The loop of [_execute_commands] runs what the loop of [execute_batch]
    runs. *)
Lemma execute_loop_batch
  (user_id : string) (all_commands : list string)
  (ai_context : gmap string string) (vps : option string)
  (ssh_config : option SshConfig) (todo : list string) :
  forall (self : ClideBot) (i : nat) (results acc : list ExecutionResult),
  exists bot' new,
    execute_loop self user_id all_commands ai_context vps ssh_config
                 i todo results = inr bot'
    /\ batch_loop (executor self) todo vps ssh_config true acc (world self)
       = Some (acc ++ new, world bot')
    /\ logged_results (events bot') = logged_results (events self) ++ new.
Proof.
  induction todo as [|cmd rest IH]; intros self i results acc;
    cbn [execute_loop batch_loop].
  - eexists _, []. split; [reflexivity|]. cbn [world emit events].
    rewrite !app_nil_r, logged_results_app. cbn. rewrite app_nil_r.
    split; reflexivity.
  - cbn [executor world emit].
    destruct (execute_total (executor self) cmd vps ssh_config true None
                (world self)) as (r & w' & n & -> & _).
    destruct (success r); cbn [negb andb].
    + destruct (IH (emit (set_world (emit self [LogCommand cmd user_id vps]) w')
                         [LogResult cmd r; AddCommand user_id cmd vps r])
                   (S i) (results ++ [r]) (acc ++ [r]))
        as (bot' & new & -> & Hb & Hl).
      exists bot', (r :: new). split; [reflexivity|].
      cbn [executor world emit set_world events] in Hb, Hl.
      rewrite <- app_assoc in Hb. split; [exact Hb|].
      rewrite Hl, !logged_results_app. cbn. rewrite app_nil_r, <- app_assoc.
      reflexivity.
    + eexists _, [r]. split; [reflexivity|].
      split.
      * repeat match goal with
               | |- context [match ?o with Some _ => _ | None => _ end] =>
                   destruct o
               | |- context [if ?b then _ else _] => destruct b
               end; reflexivity.
      * repeat match goal with
               | |- context [match ?o with Some _ => _ | None => _ end] =>
                   destruct o
               | |- context [if ?b then _ else _] => destruct b
               end;
          cbn [events emit set_world set_pending];
          rewrite !logged_results_app; cbn; rewrite !app_nil_r; reflexivity.
Qed.

(** X21.  [_execute_commands] runs a batch the way [execute_batch] with
    [stop_on_error] does: it leaves the world that [execute_batch] leaves
    for the same commands and target, and the results it logs are the
    results [execute_batch] returns. *)
Theorem execute_commands_as_batch
  (self : ClideBot) (user_id : string) (commands : list string)
  (ai_context : gmap string string) :
  exists bot' results,
    _execute_commands self user_id commands ai_context = inr bot'
    /\ execute_batch (executor self) commands (ai_context !! "vps")
                     (ssh_config_for self ai_context) true (world self)
       = Some (results, world bot')
    /\ logged_results (events bot') = logged_results (events self) ++ results.
Proof.
  unfold _execute_commands, execute_batch, ssh_config_for.
  match goal with
  | |- context [execute_loop ?s ?u ?a ?c ?v ?sc ?i ?t ?r] =>
      destruct (execute_loop_batch u a c v sc t s i r []) as (bot' & new & E & Hb & Hl)
  end.
  exists bot', new. split; [exact E|]. split; [exact Hb|exact Hl].
Qed.

Local Open Scope string_scope.

(** X22.  Handling one user's answer never touches the pending entry of
    another user. *)
Theorem handle_confirmation_isolated
  (self bot' : ClideBot) (user_id response other : string) :
  other <> user_id ->
  _handle_confirmation self user_id response = inr bot' ->
  pending_confirmations bot' !! other = pending_confirmations self !! other.
Proof.
  intros Hne. unfold _handle_confirmation.
  destruct (mem (strip (lower response)) AFFIRMATIVE).
  - destruct (pending_confirmations self !! user_id) as [p|]; [|discriminate].
    unfold _execute_commands.
    match goal with
    | |- context [execute_loop ?s ?u ?a ?c ?v ?sc ?i ?t ?r] =>
        destruct (execute_loop_pending u a c v sc t s i r) as (b & -> & Hp)
    end.
    intros [= <-]. cbn [pending_confirmations emit set_pending] in Hp.
    destruct Hp as [-> | (f & _ & ->)].
    + apply lookup_delete_ne. congruence.
    + rewrite lookup_insert_ne by congruence. apply lookup_delete_ne. congruence.
  - destruct (mem (strip (lower response)) NEGATIVE).
    + destruct (pending_confirmations self !! user_id) as [p|]; [|discriminate].
      intros [= <-]. cbn [pending_confirmations emit set_pending].
      apply lookup_delete_ne. congruence.
    + intros [= <-]. reflexivity.
Qed.

Lemma handle_confirmation_isolated_witness :
  "+15550199" <> "+15550100"
  /\ exists bot',
       _handle_confirmation shared_bot "+15550100" "no" = inr bot'
       /\ pending_confirmations bot' !! "+15550100" = None
       /\ pending_confirmations bot' !! "+15550199"
          = pending_confirmations shared_bot !! "+15550199".
Proof.
  assert (Hne : "+15550199" <> "+15550100") by discriminate.
  split; [exact Hne|]. eexists. split; [reflexivity|].
  split; [apply lookup_delete_eq|].
  exact (handle_confirmation_isolated shared_bot _ "+15550100" "no"
           "+15550199" Hne eq_refl).
Defined.

(** X23.  When the first command of a batch fails and the interpreter
    suggests a fix, the fix, whatever text it is, becomes the user's
    pending entry as a batch of one command; the rest of the batch is not
    attempted. *)
Theorem failed_command_fix_pending
  (self : ClideBot) (user_id cmd : string) (rest : list string)
  (ai_context : gmap string string) (r : ExecutionResult) (w' : World)
  (f : string) :
  execute (executor self) cmd (ai_context !! "vps")
          (ssh_config_for self ai_context) true None (world self)
  = Some (r, w') ->
  success r = false ->
  suggest_fix self cmd (error_text r) = Some f -> truthy f = true ->
  exists bot',
    _execute_commands self user_id (cmd :: rest) ai_context = inr bot'
    /\ pending_confirmations bot'
       = <[user_id := mkPending [f] ai_context (now self)]>
           (pending_confirmations self)
    /\ world bot' = w'.
Proof.
  intros He Hs Hfix Hf. unfold _execute_commands, ssh_config_for in *.
  cbn [execute_loop executor world emit].
  rewrite He, Hs. cbn [negb suggest_fix emit set_world].
  unfold error_text in Hfix. rewrite Hfix, Hf.
  eexists. split; [reflexivity|]. split; reflexivity.
Qed.

Lemma failed_command_fix_pending_witness :
  exists r w',
    execute (executor fixing_bot) "false" None None true None
            (world fixing_bot) = Some (r, w')
    /\ success r = false
    /\ exists bot',
         _execute_commands fixing_bot "+15550100" ["false"; "echo done"] ∅
         = inr bot'
         /\ pending_confirmations bot' !! "+15550100"
            = Some (mkPending ["rm -rf /"] ∅ 0)
         /\ world bot' = w'.
Proof.
  assert (He : exists r w',
             execute (executor fixing_bot) "false"
                     ((∅ : gmap string string) !! "vps")
                     (ssh_config_for fixing_bot ∅) true None (world fixing_bot)
             = Some (r, w')
             /\ success r = false
             /\ suggest_fix fixing_bot "false" (error_text r)
                = Some "rm -rf /").
  { do 2 eexists. split; [reflexivity|]. split; reflexivity. }
  destruct He as (r & w' & He & Hs & Hfix).
  exists r, w'. split; [exact He|]. split; [exact Hs|].
  destruct (failed_command_fix_pending fixing_bot "+15550100" "false"
              ["echo done"] ∅ r w' "rm -rf /" He Hs Hfix eq_refl)
    as (bot' & E & Hp & Hw).
  exists bot'. split; [exact E|]. split; [|exact Hw].
  rewrite Hp. apply lookup_insert_eq.
Defined.

(** With a budget that is not negative the first attempt is always made. *)
Lemma execute_attempts_pos
  (self : Executor) (command : string) (vps : option string)
  (ssh_config : option SshConfig) (retry_on_failure : bool)
  (use_cline_arg : option bool) (w w' : World) (r : ExecutionResult) :
  (0 <= retry_bound self retry_on_failure)%Z ->
  execute self command vps ssh_config retry_on_failure use_cline_arg w
  = Some (r, w') ->
  exists n, w' = ticks w command (S n).
Proof.
  intros Hb.
  destruct (if opt_truthy vps then ssh_config else None) as [cfg|] eqn:Ht.
  - rewrite (execute_remote_eq _ _ _ _ _ _ _ cfg Ht).
    unfold _execute_remote, loop_fuel. cbn [remote_loop].
    destruct (Z.leb_spec 0 (retry_bound self retry_on_failure)); [|lia].
    destruct (run_remote w cfg command (clock w)) as [rc out err|e|e];
      [destruct (rc =? 0)%Z;
       [|destruct (retry_on_failure && (0 <? max_retries self)%Z)]|..];
      try (intros [= <- <-]; exists 0%nat; reflexivity).
    intros Hrest. apply remote_loop_props in Hrest as (_ & _ & n & -> & _).
    exists n. reflexivity.
  - rewrite (execute_local_eq _ _ _ _ _ _ _ Ht).
    unfold _execute_local, loop_fuel. cbn [local_loop].
    destruct (Z.leb_spec 0 (retry_bound self retry_on_failure)); [|lia].
    destruct (run_local w command (clock w)) as [rc out err| |e];
      [destruct (rc =? 0)%Z;
       [|destruct (retry_on_failure && (0 <? max_retries self)%Z)]|..];
      try (intros [= <- <-]; exists 0%nat; reflexivity).
    intros Hrest. apply local_loop_props in Hrest as (_ & _ & n & -> & _).
    exists n. reflexivity.
Qed.

Local Close Scope string_scope.

(** A batch that starts with [f] attempts [f] first. *)
Lemma batch_loop_first
  (self : Executor) (vps : option string) (ssh_config : option SshConfig)
  (f : string) (rest : list string) (acc results : list ExecutionResult)
  (w w' : World) :
  (0 <= max_retries self)%Z ->
  batch_loop self (f :: rest) vps ssh_config true acc w = Some (results, w') ->
  exists more, trace w' = trace w ++ f :: more.
Proof.
  intros Hmax. cbn [batch_loop].
  destruct (execute self f vps ssh_config true None w) as [[r w1]|] eqn:E;
    [|discriminate].
  apply execute_attempts_pos in E as (n & ->); [|exact Hmax].
  destruct (negb (success r) && true).
  - intros [= _ <-]. exists (repeat f n).
    rewrite ticks_trace. cbn [trace tick]. rewrite <- app_assoc. reflexivity.
  - destruct (batch_loop_spec self vps ssh_config rest (acc ++ [r])
                (ticks w f (S n)))
      as (new & w2 & counts & -> & _ & _ & Htr & _).
    intros [= _ <-]. rewrite Htr, ticks_trace. cbn [trace tick].
    rewrite <- !app_assoc. eexists. reflexivity.
Qed.

(** X24.  On an affirmative answer the pending commands are run as they
    are, without being classified: whatever the first pending command is,
    it is attempted. *)
Theorem confirmed_commands_run_unclassified
  (self : ClideBot) (user_id response f : string) (rest : list string)
  (ai_context : gmap string string) (t : nat) :
  (0 <= max_retries (executor self))%Z ->
  mem (strip (lower response)) AFFIRMATIVE = true ->
  pending_confirmations self !! user_id
  = Some (mkPending (f :: rest) ai_context t) ->
  exists bot' more,
    _handle_confirmation self user_id response = inr bot'
    /\ trace (world bot') = trace (world self) ++ f :: more.
Proof.
  intros Hmax Ha Hp. unfold _handle_confirmation. rewrite Ha, Hp.
  cbn [commands context]. unfold _execute_commands.
  match goal with
  | |- context [execute_loop ?s ?u ?a ?c ?v ?sc ?i ?t ?r] =>
      destruct (execute_loop_batch u a c v sc t s i r [])
        as (bot' & new & -> & Hb & _)
  end.
  cbn [executor world emit set_pending] in Hb.
  apply batch_loop_first in Hb as (more & Hmore); [|exact Hmax].
  exists bot', more. split; [reflexivity|exact Hmore].
Qed.

Local Open Scope string_scope.

(** [rm -rf /], which [check_command] blocks, is run on a yes when it is
    pending. *)
Lemma confirmed_commands_run_unclassified_witness :
  (0 <= max_retries (executor risky_bot))%Z
  /\ is_safe (check_command (Safety.init None None "high") "rm -rf /") = false
  /\ pending_confirmations risky_bot !! "+15550100"
     = Some (mkPending ["rm -rf /"] ∅ 0)
  /\ exists bot' more,
       _handle_confirmation risky_bot "+15550100" "yes" = inr bot'
       /\ trace (world bot') = (trace (world risky_bot) ++ "rm -rf /" :: more)%list.
Proof.
  assert (H0 : (0 <= max_retries (executor risky_bot))%Z)
    by (vm_compute; discriminate).
  assert (Hp : pending_confirmations risky_bot !! "+15550100"
               = Some (mkPending ["rm -rf /"] ∅ 0))
    by apply lookup_singleton_eq.
  split; [exact H0|]. split; [reflexivity|]. split; [exact Hp|].
  exact (confirmed_commands_run_unclassified risky_bot "+15550100" "yes"
           "rm -rf /" [] ∅ 0 H0 eq_refl Hp).
Defined.

(* ===================================================================== *)
(** ** Message handling *)
(* ===================================================================== *)

Import Orchestrator.

Local Close Scope string_scope.

(** The commands of a batch that the classifier rejects, with the reasons. *)
Lemma gate_fold (s : Safety) (commands : list string) : forall g,
  let g' := fold_left (gate_step s) commands g in
  all_safe g'
  = all_safe g && forallb (fun c => is_safe (check_command s c)) commands
  /\ needs_confirmation g'
     = needs_confirmation g
       || existsb (fun c => is_safe (check_command s c)
                            && requires_confirmation (check_command s c))
                  commands
  /\ safety_messages g'
     = safety_messages g
       ++ map (fun c => (c, reason (check_command s c)))
              (List.filter (fun c => negb (is_safe (check_command s c)))
                           commands).
Proof.
  induction commands as [|c rest IH]; intros g; cbn [fold_left].
  - cbn. rewrite andb_true_r, orb_false_r, app_nil_r. auto.
  - destruct (IH (gate_step s g c)) as (Ha & Hn & Hm).
    cbv zeta. rewrite Ha, Hn, Hm. clear IH Ha Hn Hm.
    unfold gate_step. cbn [forallb existsb List.filter].
    destruct (is_safe (check_command s c)); cbn [negb andb orb].
    + destruct (requires_confirmation (check_command s c));
        cbn [all_safe needs_confirmation safety_messages];
        rewrite ?orb_true_r, ?orb_false_r; auto.
    + cbn [all_safe needs_confirmation safety_messages map].
      rewrite andb_false_r, <- app_assoc. auto.
Qed.

(** X25.  A fresh request never leads to an execution unless every command
    of the batch is approved outright: when the interpreter's batch holds
    a command that the classifier rejects or sends to confirmation,
    [_process_command] leaves the world and the events of the bot as they
    were. *)
Theorem process_command_gate
  (self : Orchestrator) (user_id message c : string) (commands : list string) :
  snd (process_message self (length (notes self)) user_id message
         (_build_context self user_id)) = Some commands ->
  In c commands ->
  is_safe (check_command (safety self) c) = false
  \/ requires_confirmation (check_command (safety self) c) = true ->
  exists self',
    _process_command self user_id message = inr self'
    /\ world (bot self') = world (bot self)
    /\ events (bot self') = events (bot self).
Proof.
  intros Hans Hin Hc. unfold _process_command. rewrite Hans.
  destruct (gate_fold (safety self) commands (mkGate true false []))
    as (Ha & Hn & _).
  cbv zeta in Ha, Hn. cbn [all_safe needs_confirmation andb orb] in Ha, Hn.
  destruct (all_safe (fold_left _ commands _)) eqn:Hall; cbn [negb].
  - assert (Hneed : needs_confirmation
                      (fold_left (gate_step (safety self)) commands
                                 (mkGate true false [])) = true).
    { rewrite Hn. apply existsb_exists. exists c. split; [exact Hin|].
      symmetry in Ha. rewrite forallb_forall in Ha. rewrite (Ha c Hin).
      destruct Hc as [Hc|Hc]; [rewrite (Ha c Hin) in Hc; discriminate|].
      rewrite Hc. reflexivity. }
    rewrite Hneed. cbn [orb]. eexists. split; [reflexivity|].
    split; reflexivity.
  - eexists. split; [reflexivity|]. split; reflexivity.
Qed.

Local Open Scope string_scope.

(** The interpreter proposes [df -h] and [rm -rf /]: nothing runs. *)
Lemma process_command_gate_witness :
  In "rm -rf /" ["df -h"; "rm -rf /"]
  /\ is_safe (check_command (safety sample_orchestrator) "rm -rf /") = false
  /\ exists self',
       _process_command sample_orchestrator "+15550100" "clean up" = inr self'
       /\ world (bot self') = world (bot sample_orchestrator)
       /\ events (bot self') = events (bot sample_orchestrator).
Proof.
  assert (H1 : In "rm -rf /" ["df -h"; "rm -rf /"]) by (right; left; reflexivity).
  assert (H2 : is_safe (check_command (safety sample_orchestrator) "rm -rf /")
               = false) by reflexivity.
  split; [exact H1|]. split; [exact H2|].
  exact (process_command_gate sample_orchestrator "+15550100" "clean up"
           "rm -rf /" ["df -h"; "rm -rf /"] eq_refl H1 (or_introl H2)).
Defined.

Local Close Scope string_scope.

(** X26.  When every command of the interpreter's batch is safe and one of
    them requires confirmation, or the [confirm_all] policy is set, the
    whole batch is stored as the user's pending entry with the context
    built for the request, a preview is issued, and nothing is run. *)
Theorem process_command_pending
  (self : Orchestrator) (user_id message : string) (commands : list string) :
  snd (process_message self (length (notes self)) user_id message
         (_build_context self user_id)) = Some commands ->
  (forall c, In c commands -> is_safe (check_command (safety self) c) = true) ->
  (exists c, In c commands
             /\ requires_confirmation (check_command (safety self) c) = true)
  \/ confirm_all self = true ->
  _process_command self user_id message
  = inr (note
           (set_bot self
              (set_pending (bot self)
                 (<[user_id := mkPending commands (_build_context self user_id)
                                         (now (bot self))]>
                    (pending_confirmations (bot self)))))
           [Previewed user_id (preview_subject commands)
                      (_build_context self user_id)]).
Proof.
  intros Hans Hsafe Hconf. unfold _process_command. rewrite Hans.
  destruct (gate_fold (safety self) commands (mkGate true false []))
    as (Ha & Hn & _).
  cbv zeta in Ha, Hn. cbn [all_safe needs_confirmation andb orb] in Ha, Hn.
  assert (Hall : forallb (fun c => is_safe (check_command (safety self) c))
                         commands = true)
    by (apply forallb_forall; exact Hsafe).
  rewrite Ha, Hall. cbn [negb].
  assert (Hgo : needs_confirmation
                  (fold_left (gate_step (safety self)) commands
                             (mkGate true false []))
                || confirm_all self = true).
  { destruct Hconf as [(c & Hin & Hc) | ->]; [|apply orb_true_r].
    rewrite Hn. apply orb_true_iff. left. apply existsb_exists.
    exists c. split; [exact Hin|]. rewrite (Hsafe c Hin), Hc. reflexivity. }
  rewrite Hgo. reflexivity.
Qed.

(** X27.  When the interpreter's batch holds a command the classifier
    rejects, [_process_command] only reports the rejected commands with
    their reasons, in the order of the batch; nothing is run and nothing
    is stored for confirmation, also when other commands of the batch
    would have required one. *)
Theorem process_command_blocked
  (self : Orchestrator) (user_id message c : string) (commands : list string) :
  snd (process_message self (length (notes self)) user_id message
         (_build_context self user_id)) = Some commands ->
  In c commands -> is_safe (check_command (safety self) c) = false ->
  _process_command self user_id message
  = inr (note self
           [Blocked user_id
              (map (fun c => (c, reason (check_command (safety self) c)))
                   (List.filter
                      (fun c => negb (is_safe (check_command (safety self) c)))
                      commands))]).
Proof.
  intros Hans Hin Hc. unfold _process_command. rewrite Hans.
  destruct (gate_fold (safety self) commands (mkGate true false []))
    as (Ha & _ & Hm).
  cbv zeta in Ha, Hm. cbn [all_safe safety_messages andb app] in Ha, Hm.
  assert (Hall : forallb (fun c => is_safe (check_command (safety self) c))
                         commands = false).
  { destruct (forallb _ commands) eqn:E; [|reflexivity].
    rewrite forallb_forall in E. rewrite (E c Hin) in Hc. discriminate. }
  rewrite Ha, Hall, Hm. reflexivity.
Qed.

Local Open Scope string_scope.

Lemma process_command_blocked_witness :
  In "rm -rf /" ["df -h"; "rm -rf /"]
  /\ is_safe (check_command (safety sample_orchestrator) "rm -rf /") = false
  /\ _process_command sample_orchestrator "+15550100" "clean up"
     = inr (note sample_orchestrator
              [Blocked "+15550100"
                 [("rm -rf /",
                   "Blocked: Critical destructive pattern detected")]]).
Proof.
  assert (H1 : In "rm -rf /" ["df -h"; "rm -rf /"]) by (right; left; reflexivity).
  assert (H2 : is_safe (check_command (safety sample_orchestrator) "rm -rf /")
               = false) by reflexivity.
  split; [exact H1|]. split; [exact H2|].
  exact (process_command_blocked sample_orchestrator "+15550100" "clean up"
           "rm -rf /" ["df -h"; "rm -rf /"] eq_refl H1 H2).
Defined.

Lemma process_command_pending_witness :
  (forall c, In c ["systemctl stop nginx"] ->
             is_safe (check_command (safety cautious_orchestrator) c) = true)
  /\ requires_confirmation
       (check_command (safety cautious_orchestrator) "systemctl stop nginx")
     = true
  /\ exists self',
       _process_command cautious_orchestrator "+15550100" "stop the web server"
       = inr self'
       /\ pending_confirmations (bot self') !! "+15550100"
          = Some (mkPending ["systemctl stop nginx"] ∅ 0)
       /\ world (bot self') = world (bot cautious_orchestrator).
Proof.
  assert (H1 : forall c, In c ["systemctl stop nginx"] ->
             is_safe (check_command (safety cautious_orchestrator) c) = true).
  { intros c [<-|[]]. reflexivity. }
  assert (H2 : requires_confirmation
                 (check_command (safety cautious_orchestrator)
                                "systemctl stop nginx") = true) by reflexivity.
  split; [exact H1|]. split; [exact H2|].
  eexists. split.
  - apply (process_command_pending cautious_orchestrator "+15550100"
             "stop the web server" ["systemctl stop nginx"] eq_refl H1).
    left. exists "systemctl stop nginx". split; [left; reflexivity|exact H2].
  - split; [|reflexivity]. cbn [bot note set_bot pending_confirmations set_pending].
    apply lookup_insert_eq.
Defined.

(** With an entry for the user the confirmation handler always returns. *)
Lemma handle_confirmation_total
  (self : ClideBot) (user_id response : string) (p : Pending) :
  pending_confirmations self !! user_id = Some p ->
  exists b, _handle_confirmation self user_id response = inr b.
Proof.
  intros Hp. unfold _handle_confirmation. rewrite Hp.
  destruct (mem (strip (lower response)) AFFIRMATIVE).
  - unfold _execute_commands.
    match goal with
    | |- context [execute_loop ?s ?u ?a ?c ?v ?sc ?i ?t ?r] =>
        destruct (execute_loop_pending u a c v sc t s i r) as (b & -> & _)
    end. eauto.
  - destruct (mem (strip (lower response)) NEGATIVE); eauto.
Qed.

(** X28.  While a user has a pending confirmation, every message of that
    user goes to the confirmation handler, which never fails for a missing
    entry; a message that is neither a yes nor a no, be it [help], a
    [switch] or a new request, only triggers the re-prompt: the pending
    entry stays, the interpreter is not consulted and the target is not
    changed. *)
Theorem handle_message_while_pending
  (self : Orchestrator) (user_id message_text : string) (p : Pending) :
  admin_only self = false \/ In user_id (allowed_numbers self) ->
  pending_confirmations (bot self) !! user_id = Some p ->
  (exists b,
     _handle_confirmation (bot self) user_id message_text = inr b
     /\ _handle_message self user_id message_text
        = inr (set_bot (note self [Heard user_id message_text]) b))
  /\ (mem (strip (lower message_text)) AFFIRMATIVE = false ->
      mem (strip (lower message_text)) NEGATIVE = false ->
      _handle_message self user_id message_text
      = inr (set_bot (note self [Heard user_id message_text])
                     (emit (bot self) [Send MReprompt]))).
Proof.
  intros Hallowed Hp.
  assert (Hadmin : admin_only self && negb (mem user_id (allowed_numbers self))
                   = false).
  { destruct Hallowed as [-> | Hin]; [reflexivity|].
    apply mem_true in Hin. rewrite Hin. apply andb_false_r. }
  assert (Hroute : forall b,
             _handle_confirmation (bot self) user_id message_text = inr b ->
             _handle_message self user_id message_text
             = inr (set_bot (note self [Heard user_id message_text]) b)).
  { intros b Hb. unfold _handle_message.
    cbn [admin_only allowed_numbers bot note]. rewrite Hadmin, Hp.
    rewrite bool_decide_eq_true_2 by eauto. rewrite Hb. reflexivity. }
  split.
  - destruct (handle_confirmation_total (bot self) user_id message_text p Hp)
      as (b & Hb).
    exists b. split; [exact Hb | exact (Hroute b Hb)].
  - intros Ha Hn. apply Hroute. unfold _handle_confirmation.
    rewrite Ha, Hn. reflexivity.
Qed.

(** A new request while a confirmation is pending. *)
Lemma handle_message_while_pending_witness :
  (admin_only waiting_orchestrator = false
   \/ In "+15550100" (allowed_numbers waiting_orchestrator))
  /\ pending_confirmations (bot waiting_orchestrator) !! "+15550100"
     = Some (mkPending ["systemctl stop nginx"] ∅ 0)
  /\ _handle_message waiting_orchestrator "+15550100" "show me the uptime"
     = inr (set_bot (note waiting_orchestrator
                          [Heard "+15550100" "show me the uptime"])
                    (emit (bot waiting_orchestrator) [Send MReprompt])).
Proof.
  assert (H1 : admin_only waiting_orchestrator = false
               \/ In "+15550100" (allowed_numbers waiting_orchestrator))
    by (left; reflexivity).
  assert (H2 : pending_confirmations (bot waiting_orchestrator) !! "+15550100"
               = Some (mkPending ["systemctl stop nginx"] ∅ 0))
    by apply lookup_singleton_eq.
  split; [exact H1|]. split; [exact H2|].
  exact (proj2 (handle_message_while_pending waiting_orchestrator "+15550100"
                  "show me the uptime" _ H1 H2) eq_refl eq_refl).
Defined.

(** X29.  In admin-only mode a message from a number that is not allowed
    is recorded in the conversation history and otherwise ignored: no
    reply, no classification, no execution, no change of the pending store
    or of the target. *)
Theorem handle_message_unauthorized
  (self : Orchestrator) (user_id message_text : string) :
  admin_only self = true -> ~ In user_id (allowed_numbers self) ->
  _handle_message self user_id message_text
  = inr (note self [Heard user_id message_text; Unauthorized user_id]).
Proof.
  intros Ha Hnot. unfold _handle_message.
  cbn [admin_only allowed_numbers note]. rewrite Ha.
  destruct (mem user_id (allowed_numbers self)) eqn:Hm.
  - apply mem_true in Hm. contradiction.
  - cbn [negb andb]. unfold note. cbn. rewrite <- app_assoc. reflexivity.
Qed.

Lemma handle_message_unauthorized_witness :
  admin_only sample_orchestrator = true
  /\ ~ In "+15550111" (allowed_numbers sample_orchestrator)
  /\ _handle_message sample_orchestrator "+15550111" "reboot"
     = inr (note sample_orchestrator
              [Heard "+15550111" "reboot"; Unauthorized "+15550111"]).
Proof.
  assert (H1 : admin_only sample_orchestrator = true) by reflexivity.
  assert (H2 : ~ In "+15550111" (allowed_numbers sample_orchestrator)).
  { intros [H|[]]. discriminate H. }
  split; [exact H1|]. split; [exact H2|].
  exact (handle_message_unauthorized sample_orchestrator "+15550111" "reboot"
           H1 H2).
Defined.


Example switch_vps_example :
  current_vps (_switch_vps sample_orchestrator "+15550100" "Switch  prod ")
  !! "+15550100" = Some "prod"
  /\ _switch_vps sample_orchestrator "+15550100" "switch staging"
     = note sample_orchestrator [SwitchUnknown "staging"]
  /\ _switch_vps sample_orchestrator "+15550100" "switch   "
     = note sample_orchestrator [SwitchUsage].
Proof.
  split; [apply lookup_insert_eq|]. split; reflexivity.
Qed.
